(** * Diamant: component registry, dependency resolution and the
      add / remove / update / diff reconciliation commands.

    Shallow embedding of [src/utils/registry.ts] (unnamed part_008),
    [src/utils/config.ts], and the parts of [src/commands/add.ts],
    [remove.ts], [diff.ts] and [update.ts] (unnamed part_000) that decide
    what is copied, deleted, reported and written to [diamant.json]. *)

From Stdlib Require Import String Ascii List Bool Arith Lia NArith Sorted Permutation.
Import ListNotations.
Open Scope string_scope.
Open Scope list_scope.

(* ------------------------------------------------------------------ *)
(** ** JavaScript string and array helpers *)

(** [String.prototype.toLowerCase] on the ASCII range. *)
Definition lower_ascii (c : ascii) : ascii :=
  let n := nat_of_ascii c in
  if ((65 <=? n) && (n <=? 90))%nat then ascii_of_nat (n + 32)%nat else c.

Fixpoint toLowerCase (s : string) : string :=
  match s with
  | EmptyString => EmptyString
  | String c s' => String (lower_ascii c) (toLowerCase s')
  end.

(** [Array.prototype.includes] on strings. *)
Definition includes (l : list string) (x : string) : bool :=
  existsb (String.eqb x) l.

(** A JS [Set<string>] with its insertion order; [Array.from] on it is
    the list itself. [set_add] is [Set.prototype.add]. *)
Definition set_add (x : string) (s : list string) : list string :=
  if includes s x then s else s ++ [x].

(** [Array.prototype.pop]: the last element and the array without it. *)
Definition pop {A} (l : list A) : option (A * list A) :=
  match rev l with
  | [] => None
  | x :: r => Some (x, rev r)
  end.

(* ------------------------------------------------------------------ *)
(** ** Registry ([src/utils/registry.ts]) *)

Record ComponentDefinition := mkComponent {
  name : string;
  description : string;
  dependencies : list string;
  internalDependencies : list string;
  files : list string
}.

(** The registry object literal, as its list of own entries in
    declaration order ([Object.keys] / [Object.entries] order). *)
Definition Registry := list (string * ComponentDefinition).

Definition entry (n d : string) (deps ideps fs : list string) :=
  mkComponent n d deps ideps fs.

Definition registry : Registry := [
  ("accordion", entry "Accordion" "A vertically stacked set of interactive headings that reveal content" ["lucide-react"] [] ["Accordion.tsx"]);
  ("alert", entry "Alert" "Displays a callout for user attention" ["lucide-react"] [] ["Alert.tsx"]);
  ("alertdialog", entry "AlertDialog" "A modal dialog that interrupts the user with important content" ["lucide-react"] ["button"] ["AlertDialog.tsx"]);
  ("avatar", entry "Avatar" "An image element with a fallback for user profiles" [] [] ["Avatar.tsx"]);
  ("badge", entry "Badge" "Displays a small badge or tag" [] [] ["Badge.tsx"]);
  ("button", entry "Button" "A clickable button with multiple variants and ripple effect" [] [] ["Button.tsx"]);
  ("card", entry "Card" "A container for content with header, body, and footer sections" [] [] ["Card.tsx"]);
  ("carousel", entry "Carousel" "A slideshow component for cycling through elements" ["lucide-react"] ["button"] ["Carousel.tsx"]);
  ("checkbox", entry "Checkbox" "A control that allows the user to toggle between checked and unchecked" ["lucide-react"] [] ["Checkbox.tsx"]);
  ("dialog", entry "Dialog" "A modal dialog for displaying content" ["lucide-react"] [] ["Dialog.tsx"]);
  ("dropdown", entry "Dropdown" "A menu that appears on click or hover" ["lucide-react"] [] ["Dropdown.tsx"]);
  ("fontprovider", entry "FontProvider" "Provider for managing fonts across your application" [] [] ["FontProvider.tsx"]);
  ("input", entry "Input" "A text input field with multiple variants" [] [] ["Input.tsx"]);
  ("label", entry "Label" "A label for form elements" [] [] ["Label.tsx"]);
  ("notification", entry "Notification" "Toast-style notifications that appear at screen corners" ["lucide-react"] [] ["Notification.tsx"]);
  ("progress", entry "Progress" "Displays an indicator showing the completion progress of a task" [] [] ["Progress.tsx"]);
  ("radio", entry "Radio" "A set of checkable buttons where only one can be selected at a time" [] [] ["Radio.tsx"]);
  ("select", entry "Select" "A dropdown for selecting from a list of options" ["lucide-react"] [] ["Select.tsx"]);
  ("separator", entry "Separator" "A visual divider between content" [] [] ["Separator.tsx"]);
  ("sheet", entry "Sheet" "A panel that slides in from the edge of the screen" ["lucide-react"] [] ["Sheet.tsx"]);
  ("skeleton", entry "Skeleton" "A placeholder for content that is loading" [] [] ["Skeleton.tsx"]);
  ("slider", entry "Slider" "An input for selecting a value from a range" [] [] ["Slider.tsx"]);
  ("switch", entry "Switch" "A toggle switch for boolean values" [] [] ["Switch.tsx"]);
  ("tabs", entry "Tabs" "A set of layered sections of content" [] [] ["Tabs.tsx"]);
  ("textarea", entry "Textarea" "A multi-line text input field" [] [] ["Textarea.tsx"]);
  ("toggle", entry "Toggle" "A two-state button that can be on or off" [] [] ["Toggle.tsx"]);
  ("tooltip", entry "Tooltip" "A popup that displays information related to an element" [] [] ["Tooltip.tsx"])
].

(** [getAllComponentNames] = [Object.keys(registry)]. *)
Definition getAllComponentNames (reg : Registry) : list string := map fst reg.

Fixpoint find_own (k : string) (reg : Registry) : option ComponentDefinition :=
  match reg with
  | [] => None
  | (k', d) :: reg' => if String.eqb k k' then Some d else find_own k reg'
  end.

(** The registry is an object literal, so [registry[k]] also reaches the
    properties it inherits from [Object.prototype]. All of them are truthy
    and none has [internalDependencies], [dependencies] or [files]. *)
Definition object_prototype_keys : list string :=
  ["constructor"; "__defineGetter__"; "__defineSetter__"; "hasOwnProperty";
   "__lookupGetter__"; "__lookupSetter__"; "isPrototypeOf";
   "propertyIsEnumerable"; "toString"; "valueOf"; "__proto__";
   "toLocaleString"].

Inductive Lookup :=
| Own (d : ComponentDefinition)   (** an own entry of the registry *)
| Inherited                       (** a truthy [Object.prototype] member *)
| Undefined.                      (** [undefined] *)

(** [registry[k]]. *)
Definition get (reg : Registry) (k : string) : Lookup :=
  match find_own k reg with
  | Some d => Own d
  | None => if includes object_prototype_keys k then Inherited else Undefined
  end.

(* ------------------------------------------------------------------ *)
(** ** Results of JavaScript code: a value, [process.exit], or a throw *)

Inductive Res (A : Type) :=
| Ok (a : A)
| Exit (code : nat)
| Throw.
Arguments Ok {A} a.
Arguments Exit {A} code.
Arguments Throw {A}.

(* ------------------------------------------------------------------ *)
(** ** [resolveComponentDependencies] *)

Section Resolve.

Variable reg : Registry.

(** One turn of the [while (toProcess.length > 0)] loop per unit of
    [fuel]; [None] means the fuel ran out before the loop exited. The
    result pairs [Array.from(resolved)] with the [console.warn] lines. *)
Fixpoint resolve_loop (fuel : nat) (resolved warnings toProcess : list string)
  : option (Res (list string * list string)) :=
  match pop toProcess with
  | None => Some (Ok (resolved, warnings))
  | Some (nm, rest) =>
      match fuel with
      | 0 => None
      | S fuel' =>
          let normalizedName := toLowerCase nm in
          if includes resolved normalizedName
          then resolve_loop fuel' resolved warnings rest
          else
            match get reg normalizedName with
            | Undefined =>
                resolve_loop fuel' resolved
                  (warnings ++ [("Unknown component: " ++ nm)%string]) rest
            | Inherited =>
                (* [for (const dep of undefined)] throws a TypeError *)
                Some Throw
            | Own component =>
                let resolved' := resolved ++ [normalizedName] in
                resolve_loop fuel' resolved' warnings
                  (rest ++ filter (fun dep => negb (includes resolved' dep))
                                  (internalDependencies component))
            end
      end
  end.

(** The number of loop turns the registry allows: one per requested name
    and one per internal dependency edge. *)
Definition sum_deps (r : Registry) : nat :=
  fold_right (fun kd acc => length (internalDependencies (snd kd)) + acc) 0 r.

Definition resolve_fuel (componentNames : list string) : nat :=
  length componentNames + sum_deps reg.

Definition resolveComponentDependencies (componentNames : list string)
  : option (Res (list string * list string)) :=
  resolve_loop (resolve_fuel componentNames) [] [] componentNames.

(** [getNpmDependencies]. *)
Fixpoint npm_loop (deps : list string) (componentNames : list string)
  : Res (list string) :=
  match componentNames with
  | [] => Ok deps
  | nm :: rest =>
      match get reg (toLowerCase nm) with
      | Own component =>
          npm_loop (fold_left (fun s d => set_add d s) (dependencies component) deps) rest
      | Inherited => Throw
      | Undefined => npm_loop deps rest
      end
  end.

Definition getNpmDependencies (componentNames : list string) : Res (list string) :=
  npm_loop [] componentNames.

End Resolve.

(* ------------------------------------------------------------------ *)
(** ** Project state: the components directory, [diamant.json] and the
       console, threaded through a state / exit / exception monad *)

Record DiamantConfig := mkConfig {
  schema : option string;
  typescript : bool;
  tailwind_config : string;
  tailwind_css : string;
  aliases_components : string;
  aliases_utils : string;
  installedComponents : list string
}.

(** [DEFAULT_CONFIG] of config.ts. *)
Definition DEFAULT_CONFIG : DiamantConfig :=
  mkConfig None true "tailwind.config.js" "src/app/globals.css"
           "src/components/ui" "src/lib" [].

Definition with_installed (cfg : DiamantConfig) (l : list string) : DiamantConfig :=
  mkConfig (schema cfg) (typescript cfg) (tailwind_config cfg) (tailwind_css cfg)
           (aliases_components cfg) (aliases_utils cfg) l.

(** The [diamant.json] file as [readConfig] sees it. *)
Inductive ManifestFile :=
| Missing                       (** [fs.pathExists] is false *)
| Unparseable (raw : string)    (** [readFile] or [JSON.parse] throws *)
| Parsed (cfg : DiamantConfig).

(** Console lines printed by the commands (colours and icons dropped). *)
Inductive Msg :=
| MNotInitialized
| MFailedRead
| MUnknownComponents (names : list string)
| MNoValidToRemove
| MNoneInstalled
| MDependents (names : list string)
| MWillRemove (names : list string)
| MRemovalCancelled
| MRemoved (n : nat)
| MCopyFailed (file : string)
| MAdded (n : nat)
| MNoComponentsInstalled
| MStatusMissing (name : string)
| MStatusUpToDate (name : string)
| MStatusModified (name : string) (additions deletions : nat)
| MStatusError (name : string)
| MNoComponentsToUpdate
| MAllUpToDate
| MUpdatesAvailable (names : list string)
| MUpdateCancelled
| MUpdated (n : nat)
| MUnknownComponent (input : string)
| MComponentNotInstalled (name : string)
| MUpToDate (name : string)
| MDiffHeader (name : string)
| MAddedLine (line : string)
| MRemovedLine (line : string)
| MLegend
| MErrorReadingFiles
| MComponentStatus
| MDiffHint
| MWarn (line : string)                    (** [console.warn] of the resolver *)
| MNoComponentsSelected
| MAlreadyExist (names : list string)
| MNoNewComponents
| MAllInstalled
| MAddingHeader
| MAddingLine (isNew isDep : bool) (name : string)
| MNpmInstalled (deps : list string)
| MNpmManual
| MAddSucceeded
| MComponentsLocated (path : string)
| MInitHeader
| MInitCancelled
| MTailwindDetected (version : string)
| MDepsInstalled
| MUtilsCreated (path : string)
| MCssPresent
| MCssUpdated (path : string)
| MCssCreated (path : string)
| MCssFailed                    (** with the [console.error] hint *)
| MConfigCreated
| MInitSucceeded
| MListNoneInstalled            (** with the [diamant add] hint *)
| MListNoneAvailable
| MListHeader (installedOnly : bool)
| MListRow (isInstalled : bool) (name description : string)
| MListCount (installed total : nat)  (** with the legend *)
| MListUsage.

Record Project := mkProject {
  componentFiles : string -> option string;
    (** the components directory ([config.aliases.components]), by file name *)
  manifestFile : ManifestFile;
  manifestWrites : list DiamantConfig;
    (** every document [writeConfig] has written, oldest first *)
  console : list Msg
}.

Definition M (A : Type) := Project -> Res A * Project.

Definition ret {A} (a : A) : M A := fun p => (Ok a, p).

Definition bind {A B} (m : M A) (k : A -> M B) : M B :=
  fun p => match m p with
           | (Ok a, p') => k a p'
           | (Exit n, p') => (Exit n, p')
           | (Throw, p') => (Throw, p')
           end.

Declare Scope js_scope.
Delimit Scope js_scope with js.
Notation "x <- m ;; k" := (bind m (fun x => k))
  (at level 61, m at next level, right associativity) : js_scope.
Notation "m ;; k" := (bind m (fun _ => k))
  (at level 61, right associativity) : js_scope.
Open Scope js_scope.

Definition throw {A} : M A := fun p => (Throw, p).
Definition exit {A} (code : nat) : M A := fun p => (Exit code, p).

(** [try { m } catch { h }]: a throw inside [m] runs [h] in the state
    reached at the throw; [process.exit] is not caught. *)
Definition try_catch {A} (m : M A) (h : M A) : M A :=
  fun p => match m p with
           | (Throw, p') => h p'
           | r => r
           end.

Definition log (m : Msg) : M unit :=
  fun p => (Ok tt, mkProject (componentFiles p) (manifestFile p) (manifestWrites p)
                             (console p ++ [m])).

Fixpoint for_each {A} (l : list A) (body : A -> M unit) : M unit :=
  match l with
  | [] => ret tt
  | x :: l' => body x ;; for_each l' body
  end.

(* ------------------------------------------------------------------ *)
(** ** [src/utils/config.ts] *)

Definition configExists : M bool :=
  fun p => (Ok match manifestFile p with Missing => false | _ => true end, p).

Definition readConfig : M (option DiamantConfig) :=
  fun p => (Ok match manifestFile p with Parsed cfg => Some cfg | _ => None end, p).

Definition writeConfig (cfg : DiamantConfig) : M unit :=
  fun p => (Ok tt, mkProject (componentFiles p) (Parsed cfg)
                             (manifestWrites p ++ [cfg]) (console p)).

(** [Array.prototype.sort] with the default comparator, on strings. *)
Fixpoint insert_sorted (x : string) (l : list string) : list string :=
  match l with
  | [] => [x]
  | y :: l' => if String.leb x y then x :: l else y :: insert_sorted x l'
  end.

Fixpoint sort (l : list string) : list string :=
  match l with
  | [] => []
  | x :: l' => insert_sorted x (sort l')
  end.

Definition addInstalledComponent (componentName : string) : M unit :=
  config <- readConfig ;;
  match config with
  | None => ret tt
  | Some cfg =>
      if negb (includes (installedComponents cfg) componentName) then
        writeConfig (with_installed cfg
                       (sort (installedComponents cfg ++ [componentName])))
      else ret tt
  end.

(** [splice(indexOf(x), 1)]: drop the first occurrence. *)
Fixpoint remove_first (x : string) (l : list string) : list string :=
  match l with
  | [] => []
  | y :: l' => if String.eqb y x then l' else y :: remove_first x l'
  end.

Definition removeInstalledComponent (componentName : string) : M unit :=
  config <- readConfig ;;
  match config with
  | None => ret tt
  | Some cfg =>
      if includes (installedComponents cfg) componentName then
        writeConfig (with_installed cfg
                       (remove_first componentName (installedComponents cfg)))
      else ret tt
  end.

(* ------------------------------------------------------------------ *)
(** ** The Content Transform *)

Definition dq : string := String (ascii_of_nat 34) EmptyString.

(** [\s] on the ASCII range: tab, line feed, vertical tab, form feed,
    carriage return and space. *)
Definition is_js_space (ch : ascii) : bool :=
  let n := nat_of_ascii ch in
  (((9 <=? n) && (n <=? 13)) || (n =? 32))%nat.

Definition is_quote (ch : ascii) : bool :=
  ((nat_of_ascii ch =? 34) || (nat_of_ascii ch =? 39))%nat.

Fixpoint strip_prefix (pre s : string) : option string :=
  match pre, s with
  | EmptyString, _ => Some s
  | String a pre', String b s' => if Ascii.eqb a b then strip_prefix pre' s' else None
  | _, _ => None
  end.

Fixpoint skip_spaces (s : string) : string :=
  match s with
  | String ch s' => if is_js_space ch then skip_spaces s' else s
  | EmptyString => EmptyString
  end.

Definition match_quote (s : string) : option string :=
  match s with
  | String ch s' => if is_quote ch then Some s' else None
  | EmptyString => None
  end.

(** A match of [/from\s+["']\.\.\/\.\.\/lib\/utils["']/] at the start of
    [s]; returns the rest of [s]. [\s+] is greedy and the next token is a
    quote, so no backtracking is needed. *)
Definition match_utils_import (s : string) : option string :=
  match strip_prefix "from" s with
  | Some (String ch r) =>
      if is_js_space ch then
        match match_quote (skip_spaces r) with
        | Some r2 =>
            match strip_prefix "../../lib/utils" r2 with
            | Some r3 => match_quote r3
            | None => None
            end
        | None => None
        end
      else None
  | _ => None
  end.

(** [String.prototype.replace] with a global regex: left to right, each
    match replaced, the scan resuming after it. [fuel] is the length of
    the input: every step consumes at least one character. *)
Fixpoint replace_go (fuel : nat) (repl s : string) : string :=
  match fuel with
  | 0 => s
  | S fuel' =>
      match match_utils_import s with
      | Some rest => repl ++ replace_go fuel' repl rest
      | None =>
          match s with
          | EmptyString => EmptyString
          | String ch s' => String ch (replace_go fuel' repl s')
          end
      end
  end.

(** [content.replace(/from\s+["']\.\.\/\.\.\/lib\/utils["']/g,
                     `from "${utilsImportPath}"`)]. *)
Definition transformContent (utilsImportPath content : string) : string :=
  replace_go (String.length content) ("from " ++ dq ++ utilsImportPath ++ dq) content.

(** [String.prototype.trim] on the ASCII range. *)
Definition trim_start (s : string) : string := skip_spaces s.

Fixpoint rev_string (s : string) : string :=
  match s with
  | EmptyString => EmptyString
  | String ch s' => rev_string s' ++ String ch EmptyString
  end.

Definition trim (s : string) : string :=
  rev_string (trim_start (rev_string (trim_start s))).

(** [s.split(sep)] for a one-character separator. *)
Fixpoint split_char (sep : ascii) (s : string) : list string :=
  match s with
  | EmptyString => [EmptyString]
  | String ch s' =>
      if Ascii.eqb ch sep then EmptyString :: split_char sep s'
      else match split_char sep s' with
           | w :: ws => String ch w :: ws
           | [] => [String ch EmptyString]
           end
  end.

Definition split_slash : string -> list string := split_char "/"%char.

Fixpoint repeat_string (s : string) (n : nat) : string :=
  match n with 0 => EmptyString | S n' => s ++ repeat_string s n' end.

(** [utilsPath.replace(/^src\//, "@/")]. *)
Definition replace_src_prefix (utilsPath : string) : string :=
  match strip_prefix "src/" utilsPath with
  | Some rest => "@/" ++ rest
  | None => utilsPath
  end.

(** [getUtilsImportPath] of diff.ts and update.ts; add.ts inlines the
    same computation (lines 165-178). *)
Definition getUtilsImportPath (projectType componentsPath utilsPath : string) : string :=
  if String.eqb projectType "cra" then
    let componentsDepth := List.length (split_slash componentsPath) in
    let utilsPathParts := split_slash utilsPath in
    let upPath := repeat_string "../" (componentsDepth - 1) in
    upPath ++ String.concat "/" (tl utilsPathParts) ++ "/utils"
  else replace_src_prefix utilsPath ++ "/utils".

Example getUtilsImportPath_next :
  getUtilsImportPath "next" "src/components/ui" "src/lib" = "@/lib/utils".
Proof. reflexivity. Qed.

Example getUtilsImportPath_cra :
  getUtilsImportPath "cra" "src/components/ui" "src/lib" = "../../lib/utils".
Proof. reflexivity. Qed.

Example transformContent_eval :
  transformContent "@/lib/utils"
    ("import { cn } from " ++ dq ++ "../../lib/utils" ++ dq ++ ";")%string
  = ("import { cn } from " ++ dq ++ "@/lib/utils" ++ dq ++ ";")%string.
Proof. vm_compute. reflexivity. Qed.

(* ------------------------------------------------------------------ *)
(** ** Commands *)

(** One part of the result of [Diff.diffLines] (npm package [diff]). *)
Record Change := mkChange { added : bool; removed : bool; value : string }.

Definition set_file (p : Project) (file : string) (v : option string) : Project :=
  mkProject (fun f => if String.eqb f file then v else componentFiles p f)
            (manifestFile p) (manifestWrites p) (console p).

Definition is_empty {A} (l : list A) : bool :=
  match l with [] => true | _ => false end.

Section Commands.

(** The bundled template files ([getComponentsSourceDir()]), by file name;
    [None] makes [readFile] throw. *)
Variable templates : string -> option string.
(** Which destination files [writeFile] can write; a [false] makes it throw. *)
Variable writable : string -> bool.
(** The result of [detectProjectType(cwd)]. *)
Variable projectType : string.
(** [Diff.diffLines]. *)
Variable diffLines : string -> string -> list Change.

(** [src/utils/fs.ts], on the components directory. *)
Definition fileExists (file : string) : M bool :=
  fun p => (Ok match componentFiles p file with Some _ => true | None => false end, p).

Definition readLocal (file : string) : M string :=
  fun p => match componentFiles p file with
           | Some s => (Ok s, p)
           | None => (Throw, p)
           end.

Definition readTemplate (file : string) : M string :=
  fun p => match templates file with
           | Some s => (Ok s, p)
           | None => (Throw, p)
           end.

Definition writeFile (file content : string) : M unit :=
  fun p => if writable file then (Ok tt, set_file p file (Some content)) else (Throw, p).

Definition deleteFile (file : string) : M unit :=
  ex <- fileExists file ;;
  if ex then (fun p => (Ok tt, set_file p file None)) else ret tt.

Definition utilsImportPathOf (cfg : DiamantConfig) : string :=
  getUtilsImportPath projectType (aliases_components cfg) (aliases_utils cfg).

(** *** [add]: the copy phase (add.ts lines 154-193) *)

Definition copy_file (cfg : DiamantConfig) (nm file : string) : M unit :=
  try_catch
    (content <- readTemplate file ;;
     writeFile file (transformContent (utilsImportPathOf cfg) content) ;;
     addInstalledComponent nm)
    (log (MCopyFailed file) ;; exit 1).

Definition copy_components (reg : Registry) (cfg : DiamantConfig)
    (componentsToAdd : list string) : M unit :=
  for_each componentsToAdd (fun nm =>
    match get reg nm with
    | Undefined => ret tt
    | Inherited => throw   (* [for (const file of undefined)] *)
    | Own componentDef => for_each (files componentDef) (copy_file cfg nm)
    end).

(** *** [remove] (remove.ts) *)

Definition display (n : string) : string :=
  match get registry n with Own d => name d | _ => EmptyString end.

(** [validComponents] (normalised) and [invalidComponents] (as given). *)
Fixpoint partition_valid (components : list string) : list string * list string :=
  match components with
  | [] => ([], [])
  | nm :: rest =>
      let '(valid, invalid) := partition_valid rest in
      match get registry (toLowerCase nm) with
      | Undefined => (valid, nm :: invalid)
      | _ => (toLowerCase nm :: valid, invalid)
      end
  end.

(** [fileExists(path.join(componentsDir, componentDef.files[0]))]; a
    missing [files[0]] makes [path.join] throw. *)
Definition first_file_exists (n : string) : M bool :=
  match get registry n with
  | Own d => match files d with f0 :: _ => fileExists f0 | [] => throw end
  | _ => throw
  end.

Fixpoint filter_installed (names : list string) : M (list string) :=
  match names with
  | [] => ret []
  | n :: rest =>
      b <- first_file_exists n ;;
      r <- filter_installed rest ;;
      ret (if b then n :: r else r)
  end.

Definition dependents_of (installed allInstalled : list string) : list string :=
  flat_map (fun nm =>
    map fst (filter (fun '(otherName, otherDef) =>
                       includes (internalDependencies otherDef) nm
                       && includes allInstalled otherName
                       && negb (includes installed otherName)) registry))
    installed.

Definition remove_one (nm : string) : M unit :=
  (match get registry nm with
   | Own componentDef => for_each (files componentDef) deleteFile
   | _ => throw
   end) ;;
  removeInstalledComponent nm.

(** [yes] is [options.yes]; [answer] is the reply to the confirmation. *)
Definition remove (components : list string) (yes answer : bool) : M unit :=
  ex <- configExists ;;
  if negb ex then (log MNotInitialized ;; exit 1) else
  config <- readConfig ;;
  match config with
  | None => log MFailedRead ;; exit 1
  | Some cfg =>
      let '(validComponents, invalidComponents) := partition_valid components in
      (if is_empty invalidComponents then ret tt
       else log (MUnknownComponents invalidComponents)) ;;
      if is_empty validComponents then log MNoValidToRemove else
      installedComponents_ <- filter_installed validComponents ;;
      if is_empty installedComponents_ then log MNoneInstalled else
      let dependentComponents :=
        dependents_of installedComponents_ (installedComponents cfg) in
      (if is_empty dependentComponents then ret tt
       else log (MDependents (map display dependentComponents))) ;;
      confirmed <- (if yes then ret true
                    else (log (MWillRemove (map display installedComponents_)) ;;
                          ret answer)) ;;
      if negb confirmed then log MRemovalCancelled else
      for_each installedComponents_ remove_one ;;
      log (MRemoved (length installedComponents_))
  end.

(** *** [diff] (diff.ts) *)

(** One turn of the summary loop (lines 81-117); the result is whether it
    set [hasModified]. *)
Definition diff_entry (cfg : DiamantConfig) (nm : string) : M bool :=
  match get registry nm with
  | Undefined => ret false
  | Inherited => throw
  | Own componentDef =>
      match files componentDef with
      | [] => throw
      | f0 :: _ =>
          ex <- fileExists f0 ;;
          if negb ex then (log (MStatusMissing (name componentDef)) ;; ret false) else
          try_catch
            (localContent <- readLocal f0 ;;
             sourceContent <- readTemplate f0 ;;
             let sourceContent' := transformContent (utilsImportPathOf cfg) sourceContent in
             if String.eqb (trim localContent) (trim sourceContent')
             then (log (MStatusUpToDate (name componentDef)) ;; ret false)
             else
               let changes := diffLines sourceContent' localContent in
               log (MStatusModified (name componentDef)
                                    (length (filter added changes))
                                    (length (filter removed changes))) ;;
               ret true)
            (log (MStatusError (name componentDef)) ;; ret false)
      end
  end.

Fixpoint diff_loop (cfg : DiamantConfig) (names : list string) (hasModified : bool)
  : M bool :=
  match names with
  | [] => ret hasModified
  | nm :: rest =>
      m <- diff_entry cfg nm ;;
      diff_loop cfg rest (hasModified || m)
  end.

Definition nonempty_lines (v : string) : list string :=
  filter (fun l => negb (String.eqb l EmptyString)) (split_char (ascii_of_nat 10) v).

Definition showDiff (cfg : DiamantConfig) (nm : string) : M unit :=
  match get registry nm with
  | Own componentDef =>
      match files componentDef with
      | [] => throw
      | f0 :: _ =>
          try_catch
            (localContent <- readLocal f0 ;;
             sourceContent <- readTemplate f0 ;;
             let sourceContent' := transformContent (utilsImportPathOf cfg) sourceContent in
             if String.eqb (trim localContent) (trim sourceContent')
             then log (MUpToDate (name componentDef))
             else
               log (MDiffHeader (name componentDef)) ;;
               for_each (diffLines sourceContent' localContent) (fun part =>
                 if added part then for_each (nonempty_lines (value part)) (fun l => log (MAddedLine l))
                 else if removed part then for_each (nonempty_lines (value part)) (fun l => log (MRemovedLine l))
                 else ret tt) ;;
               log MLegend)
            (log MErrorReadingFiles)
      end
  | _ => throw
  end.

(** [component] is the optional argument; the empty string is falsy. *)
Definition diff (component : option string) : M unit :=
  ex <- configExists ;;
  if negb ex then (log MNotInitialized ;; exit 1) else
  config <- readConfig ;;
  match config with
  | None => log MFailedRead ;; exit 1
  | Some cfg =>
      match component with
      | Some comp =>
          if String.eqb comp EmptyString then ret tt else
          let normalizedName := toLowerCase comp in
          match get registry normalizedName with
          | Undefined => log (MUnknownComponent comp)
          | Inherited => throw
          | Own componentDef =>
              match files componentDef with
              | [] => throw
              | f0 :: _ =>
                  ex' <- fileExists f0 ;;
                  if negb ex' then log (MComponentNotInstalled (name componentDef))
                  else showDiff cfg normalizedName
              end
          end
      | None => ret tt
      end ;;
      if (match component with Some comp => negb (String.eqb comp EmptyString) | None => false end)
      then ret tt else
      let installed := installedComponents cfg in
      if is_empty installed then log MNoComponentsInstalled else
      log MComponentStatus ;;
      hasModified <- diff_loop cfg installed false ;;
      if hasModified then log MDiffHint else ret tt
  end.

(** *** [update] (unnamed part_000) *)

(** One turn of the checking loop (lines 247-275): [Some] is a push onto
    [componentsToUpdate]. *)
Definition update_entry (cfg : DiamantConfig) (nm : string) : M (option (string * bool)) :=
  let normalizedName := toLowerCase nm in
  match get registry normalizedName with
  | Undefined => ret None
  | Inherited => throw
  | Own componentDef =>
      match files componentDef with
      | [] => throw
      | f0 :: _ =>
          ex <- fileExists f0 ;;
          if negb ex then ret None else
          try_catch
            (localContent <- readLocal f0 ;;
             sourceContent <- readTemplate f0 ;;
             let sourceContent' := transformContent (utilsImportPathOf cfg) sourceContent in
             let hasChanges := negb (String.eqb (trim localContent) (trim sourceContent')) in
             ret (Some (normalizedName, hasChanges)))
            (ret None)
      end
  end.

Fixpoint update_check (cfg : DiamantConfig) (names : list string)
  : M (list (string * bool)) :=
  match names with
  | [] => ret []
  | nm :: rest =>
      e <- update_entry cfg nm ;;
      r <- update_check cfg rest ;;
      ret (match e with Some x => x :: r | None => r end)
  end.

Definition update_one (cfg : DiamantConfig) (nm : string) : M unit :=
  match get registry nm with
  | Own componentDef =>
      for_each (files componentDef) (fun file =>
        content <- readTemplate file ;;
        writeFile file (transformContent (utilsImportPathOf cfg) content))
  | _ => throw
  end.

Definition update (components : list string) (yes answer : bool) : M unit :=
  ex <- configExists ;;
  if negb ex then (log MNotInitialized ;; exit 1) else
  config <- readConfig ;;
  match config with
  | None => log MFailedRead ;; exit 1
  | Some cfg =>
      let components := if is_empty components then installedComponents cfg
                        else components in
      if is_empty components then log MNoComponentsToUpdate else
      componentsToUpdate <- update_check cfg components ;;
      let updateable := filter snd componentsToUpdate in
      if is_empty updateable then log MAllUpToDate else
      log (MUpdatesAvailable (map (fun x => display (fst x)) updateable)) ;;
      confirmed <- (if yes then ret true else ret answer) ;;
      if negb confirmed then log MUpdateCancelled else
      for_each updateable (fun x => update_one cfg (fst x)) ;;
      log (MUpdated (length updateable))
  end.

End Commands.

(** *** [add] (add.ts) *)

Section AddCommand.

Variable templates : string -> option string.
Variable writable : string -> bool.
Variable projectType : string.
(** Whether the package-manager command run by [execSync] succeeds. *)
Variable npmInstallOk : bool.

(** Lines 76-86: [existingComponents] and [newComponents]. A missing
    [files[0]] makes [path.join] throw, and so does an inherited member
    (its [files] is [undefined]). *)
Fixpoint split_existing (names : list string) : M (list string * list string) :=
  match names with
  | [] => ret ([], [])
  | n :: rest =>
      match get registry n with
      | Undefined => split_existing rest
      | Inherited => throw
      | Own componentDef =>
          match files componentDef with
          | [] => throw
          | f0 :: _ =>
              b <- fileExists f0 ;;
              r <- split_existing rest ;;
              ret (if b then (n :: fst r, snd r) else (fst r, n :: snd r))
          end
      end
  end.

(** [yes], [all] and [overwrite] are the options; [selection] is the
    answer to the multiselect prompt (empty when nothing is chosen) and
    [overwriteAnswer] the answer to the overwrite prompt. Spinner progress
    lines are not modelled; their final [succeed] / [warn] / [fail] text
    is. The resolver's [console.warn] lines are printed when it returns;
    when it throws, the lines it printed before the throw are not kept. *)
Definition add (components : list string) (yes all overwrite : bool)
    (selection : list string) (overwriteAnswer : bool) : M unit :=
  ex <- configExists ;;
  if negb ex then (log MNotInitialized ;; exit 1) else
  config <- readConfig ;;
  match config with
  | None => log MFailedRead ;; exit 1
  | Some cfg =>
      let components := if all then getAllComponentNames registry else components in
      let chosen := if is_empty components
                    then (if is_empty selection then None else Some selection)
                    else Some components in
      match chosen with
      | None => log MNoComponentsSelected
      | Some components =>
          match resolveComponentDependencies registry components with
          | None => throw   (* the fuel is enough: [resolve_terminates] *)
          | Some Throw => throw
          | Some (Exit n) => exit n
          | Some (Ok (resolvedComponents, warnings)) =>
              for_each warnings (fun w => log (MWarn w)) ;;
              r <- split_existing resolvedComponents ;;
              let existingComponents := fst r in
              let newComponents := snd r in
              ow <- (if negb (is_empty existingComponents) && negb overwrite then
                       log (MAlreadyExist (map display existingComponents)) ;;
                       (if yes then ret (Some false)
                        else if overwriteAnswer then ret (Some true)
                        else if is_empty newComponents
                        then (log MNoNewComponents ;; ret None)
                        else ret (Some false))
                     else ret (Some overwrite)) ;;
              match ow with
              | None => ret tt
              | Some overwrite' =>
                  let componentsToAdd :=
                    if overwrite' then resolvedComponents else newComponents in
                  if is_empty componentsToAdd then log MAllInstalled else
                  log MAddingHeader ;;
                  for_each componentsToAdd (fun nm =>
                    log (MAddingLine (negb (includes existingComponents nm))
                                     (negb (includes (map toLowerCase components) nm))
                                     (display nm))) ;;
                  match getNpmDependencies registry componentsToAdd with
                  | Throw => throw
                  | Exit n => exit n
                  | Ok npmDeps =>
                      (if is_empty npmDeps then ret tt
                       else if npmInstallOk then log (MNpmInstalled npmDeps)
                       else log MNpmManual) ;;
                      copy_components templates writable projectType registry cfg
                                      componentsToAdd ;;
                      log MAddSucceeded ;;
                      log (MAdded (length componentsToAdd)) ;;
                      log (MComponentsLocated (aliases_components cfg))
                  end
              end
          end
      end
  end.

End AddCommand.

(** Whether the first file of registry component [n] is in the
    components directory of [p] (what [first_file_exists] tests). *)
Definition installed_on_disk (p : Project) (n : string) : bool :=
  match get registry n with
  | Own d => match files d with
             | f0 :: _ => match componentFiles p f0 with Some _ => true | None => false end
             | [] => false
             end
  | _ => false
  end.

Definition with_console (p : Project) (out : list Msg) : Project :=
  mkProject (componentFiles p) (manifestFile p) (manifestWrites p) out.

(** A step that returns normally and prints nothing. *)
Definition quiet (m : M unit) : Prop :=
  forall q, exists q', m q = (Ok tt, q') /\ console q' = console q.

(* ------------------------------------------------------------------ *)
(** ** Further definitions: [isComponentInstalled], string search, and
       predicates used by the facts below *)

(** Every [internalDependencies] entry of the registry is a lower-case own
    key. *)
Definition registry_wf (reg : Registry) : bool :=
  forallb (fun kd =>
    forallb (fun dep => String.eqb (toLowerCase dep) dep &&
                        match find_own dep reg with Some _ => true | None => false end)
            (internalDependencies (snd kd))) reg.

(** [isComponentInstalled] of config.ts. *)
Definition isComponentInstalled (componentName : string) : M bool :=
  config <- readConfig ;;
  match config with
  | None => ret false
  | Some cfg => ret (includes (installedComponents cfg) componentName)
  end.

(** The order [Array.prototype.sort] uses on ASCII strings. *)
Definition str_le (a b : string) : Prop := String.leb a b = true.

(** [String.prototype.includes]. *)
Fixpoint str_includes (needle hay : string) : bool :=
  match strip_prefix needle hay with
  | Some _ => true
  | None => match hay with
            | EmptyString => false
            | String _ hay' => str_includes needle hay'
            end
  end.

(** A string made only of [\s] characters. *)
Definition blank (s : string) : bool := forallb is_js_space (list_ascii_of_string s).

Definition has_char (ch : ascii) (s : string) : Prop := In ch (list_ascii_of_string s).

(** A step that never changes file [f] of the components directory,
    whatever its outcome. *)
Definition keeps (f : string) {A} (m : M A) : Prop :=
  forall p, componentFiles (snd (m p)) f = componentFiles p f.

(** A property of projects that a step keeps, whatever its outcome. *)
Definition preserves (I : Project -> Prop) {A} (m : M A) : Prop :=
  forall p, I p -> I (snd (m p)).

Definition same_files (fs : list string) (p0 p : Project) : Prop :=
  forall f, In f fs -> componentFiles p f = componentFiles p0 f.

(** The files of the registry components [names]. *)
Definition owned_by (names : list string) (f : string) : bool :=
  existsb (fun n => match get registry n with Own d => includes (files d) f | _ => false end) names.

(** The manifest is parsed, differs from [cfg] at most in its component
    list, and that list holds exactly the names satisfying [S]. *)
Definition manifest_members (cfg : DiamantConfig) (S : string -> Prop) (q : Project) : Prop :=
  exists l, manifestFile q = Parsed (with_installed cfg l) /\ forall x, In x l <-> S x.

(** What [add] writes to file [f]: its template through the Content
    Transform. *)
Definition expected (templates : string -> option string) (projectType : string)
    (cfg : DiamantConfig) (f : string) : option string :=
  option_map (transformContent (utilsImportPathOf projectType cfg)) (templates f).

(* ------------------------------------------------------------------ *)
(** ** [init] (init.ts) *)

Definition nl : string := String (ascii_of_nat 10) EmptyString.

(** [if (x) c = x] on an optional string: [undefined] and [""] are falsy
    and keep [dflt]. *)
Definition or_default (x : option string) (dflt : string) : string :=
  match x with
  | Some s => if String.eqb s EmptyString then dflt else s
  | None => dflt
  end.

Record InitOptions := mkInitOptions {
  opt_yes : bool;
  opt_typescript : option bool;
  opt_css : option string;
  opt_components : option string
}.

(** The answers to the three text prompts ([undefined] when cancelled). *)
Record InitResponses := mkInitResponses {
  resp_components : option string;
  resp_utils : option string;
  resp_css : option string
}.

(** Lines 56-111: the configuration [init] writes. [hasTypeScript],
    [isNextJs] and [hasSrcDir] are the [fs.pathExists] tests and
    [tailwindConfigPath] the [configPath] of the second [detectTailwind].
    [getDefaultConfig] copies [DEFAULT_CONFIG]; [init] overwrites every
    field but [$schema] and [installedComponents]. *)
Definition init_config (options : InitOptions) (hasTypeScript isNextJs hasSrcDir : bool)
    (tailwindConfigPath : option string) (responses : InitResponses) : DiamantConfig :=
  let typescript := match opt_typescript options with Some b => b | None => hasTypeScript end in
  let css := or_default (opt_css options)
               (if isNextJs then (if hasSrcDir then "src/app/globals.css" else "app/globals.css")
                else (if hasSrcDir then "src/index.css" else "index.css")) in
  let components := or_default (opt_components options)
                      (if hasSrcDir then "src/components/ui" else "components/ui") in
  let utils := if hasSrcDir then "src/lib" else "lib" in
  let twConfig := or_default tailwindConfigPath "tailwind.config.js" in
  if opt_yes options then
    mkConfig (schema DEFAULT_CONFIG) typescript twConfig css components utils
             (installedComponents DEFAULT_CONFIG)
  else
    mkConfig (schema DEFAULT_CONFIG) typescript twConfig
             (or_default (resp_css responses) css)
             (or_default (resp_components responses) components)
             (or_default (resp_utils responses) utils)
             (installedComponents DEFAULT_CONFIG).

Definition theme_header : string := ("/* Diamant Theme */")%string.

(** Lines 148-178: the new content of the global CSS file (if written) and
    the spinner's final line. [themes] is [themes.css] ([None]: [readFile]
    throws), [existing] the CSS file ([None]: it does not exist) and
    [writeOk] whether [ensureDir] / [writeFile] succeed. *)
Definition theme_css (projectType cssPath : string) (themes existing : option string)
    (writeOk : bool) : option string * Msg :=
  match themes with
  | None => (None, MCssFailed)
  | Some themesContent =>
      let tailwindImport :=
        if String.eqb projectType "cra"
        then ("@tailwind base;" ++ nl ++ "@tailwind components;" ++ nl ++ "@tailwind utilities;")%string
        else ("@import " ++ dq ++ "tailwindcss" ++ dq ++ ";")%string in
      match existing with
      | Some existingContent =>
          if str_includes "--background:" existingContent then (None, MCssPresent)
          else
            let newContent :=
              if negb (str_includes "@tailwind" existingContent) &&
                 negb (str_includes "tailwindcss" existingContent)
              then (tailwindImport ++ nl ++ nl ++ existingContent)%string
              else existingContent in
            let newContent := (newContent ++ nl ++ nl ++ theme_header ++ nl ++ themesContent)%string in
            if writeOk then (Some newContent, MCssUpdated cssPath) else (None, MCssFailed)
      | None =>
          if writeOk
          then (Some (tailwindImport ++ nl ++ nl ++ theme_header ++ nl ++ themesContent)%string,
                MCssCreated cssPath)
          else (None, MCssFailed)
      end
  end.

Section InitCommand.

(** What [init] finds in the project root. *)
Variables hasTypeScript isNextJs hasSrcDir : bool.
(** [detectTailwind(cwd).version]: [None] when Tailwind is not installed. *)
Variable tailwindVersion : option string.
(** The result of [promptTailwindInstall]; its own output is not modelled. *)
Variable tailwindInstallOk : bool.
Variable tailwindConfigPath : option string.
(** Whether [execSync] of the install command succeeds. *)
Variable depsInstallOk : bool.
(** Whether [ensureDir] / [writeFile] of the utils file succeed. *)
Variable utilsWritable : bool.
Variable projectType : string.
(** [themes.css], the files of the project root and which of them can be
    written. The utils file and the CSS file live outside the components
    directory; only the messages about them are modelled. *)
Variable themes : option string.
Variable rootFile : string -> option string.
Variable rootWritable : string -> bool.


End InitCommand.

(* ------------------------------------------------------------------ *)
(** ** [list] (list.ts) *)

(** Lines 196-206: one row of the table; [registry[name]] is read
    without a check, so a name that is not an own key throws. *)
Definition list_row (installedComponents : list string) (n : string) : M unit :=
  match get registry n with
  | Own component => log (MListRow (includes installedComponents n) (name component)
                                   (description component))
  | _ => throw
  end.

(** Lines 161-226 ([list] is a Rocq type, hence the name). A missing or
    unreadable [diamant.json] is not an error: nothing is installed. *)
Definition list_cmd (installed : bool) : M unit :=
  let allComponents := getAllComponentNames registry in
  ex <- configExists ;;
  installedComponents <- (if ex then
                            config <- readConfig ;;
                            ret match config with
                                | Some cfg => installedComponents cfg
                                | None => []
                                end
                          else ret []) ;;
  let componentsToShow := if installed
                          then filter (fun n => includes installedComponents n) allComponents
                          else allComponents in
  if is_empty componentsToShow
  then log (if installed then MListNoneInstalled else MListNoneAvailable)
  else
    log (MListHeader installed) ;;
    for_each componentsToShow (list_row installedComponents) ;;
    (if installed then ret tt
     else log (MListCount (length installedComponents) (length allComponents))) ;;
    log MListUsage.

(** Whether a line of the table carries the "installed" marker. *)
Definition row_installed (m : Msg) : bool :=
  match m with MListRow b _ _ => b | _ => false end.


(* ------------------------------------------------------------------ *)
(** ** Facts about the helpers *)

Lemma includes_app_single l x k :
  includes (l ++ [x]) k = includes l k || String.eqb k x.
Proof.
  unfold includes. rewrite existsb_app. simpl. now rewrite orb_false_r.
Qed.

Lemma includes_In l x : includes l x = true <-> In x l.
Proof.
  unfold includes. rewrite existsb_exists. split.
  - intros [y [Hy Heq]]. apply String.eqb_eq in Heq. now subst.
  - intros H. exists x. split; [exact H | apply String.eqb_refl].
Qed.

Lemma pop_length {A} (l : list A) x r : pop l = Some (x, r) -> length l = S (length r).
Proof.
  unfold pop. intros H. destruct (rev l) as [|y r'] eqn:E; [discriminate|].
  injection H as <- <-. rewrite <- (rev_involutive l), E. simpl.
  rewrite length_app, !length_rev. simpl. lia.
Qed.

Lemma pop_single {A} (x : A) : pop [x] = Some (x, []).
Proof. reflexivity. Qed.

Lemma find_own_In k reg d : find_own k reg = Some d -> In (k, d) reg.
Proof.
  induction reg as [|[k' d'] reg IH]; simpl; [discriminate|].
  destruct (String.eqb_spec k k') as [->|_].
  - intros [= ->]. now left.
  - intros H. right. now apply IH.
Qed.

Lemma registry_keys_lowercase k d :
  find_own k registry = Some d -> toLowerCase k = k.
Proof.
  intros H. apply find_own_In in H.
  assert (Hall : forallb (fun kd => String.eqb (toLowerCase (fst kd)) (fst kd)) registry = true)
    by (vm_compute; reflexivity).
  rewrite forallb_forall in Hall. apply Hall in H. simpl in H.
  now apply String.eqb_eq.
Qed.

Lemma set_add_fold_spec l s :
  NoDup s ->
  NoDup (fold_left (fun s d => set_add d s) l s) /\
  (forall x, In x (fold_left (fun s d => set_add d s) l s) <-> In x s \/ In x l).
Proof.
  revert s. induction l as [|y l IH]; intros s Hs; simpl.
  - split; [exact Hs|]. intros x. tauto.
  - assert (Hs' : NoDup (set_add y s) /\ forall x, In x (set_add y s) <-> In x s \/ x = y).
    { unfold set_add. destruct (includes s y) eqn:E.
      - apply includes_In in E. split; [exact Hs|]. intros x. split; [tauto|].
        intros [H| ->]; assumption.
      - split.
        + apply NoDup_app; [exact Hs | constructor; [intros []|constructor] |].
          intros x Hx [<-|[]]. apply includes_In in Hx. congruence.
        + intros x. rewrite in_app_iff. simpl. intuition. }
    destruct Hs' as [Hnd Hin]. destruct (IH _ Hnd) as [IH1 IH2]. split; [exact IH1|].
    intros x. rewrite IH2, Hin. intuition.
Qed.

(* ------------------------------------------------------------------ *)
(** ** The resolver loop: potential argument *)

Section ResolveFacts.

Variable reg : Registry.

(** Dependency edges of the registry entries whose key is not yet in
    [resolved]: the pushes that can still happen. *)
Fixpoint open_edges (resolved : list string) (r : Registry) : nat :=
  match r with
  | [] => 0
  | (k, d) :: r' =>
      (if includes resolved k then 0 else length (internalDependencies d))
      + open_edges resolved r'
  end.

Lemma open_edges_nil r : open_edges [] r = sum_deps r.
Proof. induction r as [|[k d] r IH]; simpl; [reflexivity|]. now rewrite IH. Qed.

Lemma open_edges_mono resolved x r :
  open_edges (resolved ++ [x]) r <= open_edges resolved r.
Proof.
  induction r as [|[k d] r IH]; simpl; [lia|].
  rewrite includes_app_single.
  destruct (includes resolved k); simpl; [lia|].
  destruct (String.eqb k x); lia.
Qed.

Lemma open_edges_add resolved n d r :
  find_own n r = Some d -> includes resolved n = false ->
  open_edges (resolved ++ [n]) r + length (internalDependencies d)
  <= open_edges resolved r.
Proof.
  induction r as [|[k d'] r IH]; simpl; [discriminate|].
  rewrite includes_app_single.
  destruct (String.eqb_spec n k) as [<-|Hne].
  - intros [= ->] Hn. rewrite Hn, String.eqb_refl. simpl.
    pose proof (open_edges_mono resolved n r). lia.
  - intros Hf Hn. specialize (IH Hf Hn).
    destruct (includes resolved k); simpl; [lia|].
    destruct (String.eqb k n); lia.
Qed.

Lemma resolve_loop_total fuel resolved warnings toProcess :
  length toProcess + open_edges resolved reg <= fuel ->
  resolve_loop reg fuel resolved warnings toProcess <> None.
Proof.
  revert resolved warnings toProcess.
  induction fuel as [|fuel IH]; intros resolved warnings toProcess Hpot; simpl.
  - destruct (pop toProcess) as [[nm rest]|] eqn:Hp; [|discriminate].
    apply pop_length in Hp. lia.
  - destruct (pop toProcess) as [[nm rest]|] eqn:Hp; [|discriminate].
    apply pop_length in Hp.
    destruct (includes resolved (toLowerCase nm)) eqn:Hinc.
    { apply IH. lia. }
    destruct (get reg (toLowerCase nm)) as [d| |] eqn:Hget.
    + apply IH. unfold get in Hget.
      destruct (find_own (toLowerCase nm) reg) as [d'|] eqn:Hf;
        [injection Hget as ->|destruct (includes object_prototype_keys _); discriminate].
      pose proof (open_edges_add resolved _ _ _ Hf Hinc).
      rewrite length_app.
      pose proof (filter_length_le
                    (fun dep => negb (includes (resolved ++ [toLowerCase nm]) dep))
                    (internalDependencies d)).
      lia.
    + discriminate.
    + apply IH. lia.
Qed.

Lemma resolve_loop_single_dep fuel A B dA dB :
  toLowerCase A = A -> toLowerCase B = B -> A <> B ->
  get reg A = Own dA -> internalDependencies dA = [B] ->
  get reg B = Own dB -> internalDependencies dB = [] ->
  2 <= fuel ->
  resolve_loop reg fuel [] [] [A] = Some (Ok ([A; B], [])).
Proof.
  intros HlA HlB Hne HA HdA HB HdB Hf.
  destruct fuel as [|[|fuel]]; [lia|lia|].
  simpl resolve_loop. rewrite HlA. simpl includes. rewrite HA, HdA. simpl filter.
  replace (String.eqb B A) with false by (symmetry; now apply String.eqb_neq).
  simpl. rewrite HlB.
  replace (String.eqb B A) with false by (symmetry; now apply String.eqb_neq).
  simpl. rewrite HB, HdB. destruct fuel; reflexivity.
Qed.

End ResolveFacts.

Example resolve_carousel_eval :
  resolveComponentDependencies registry ["carousel"]
  = Some (Ok (["carousel"; "button"], [])).
Proof. vm_compute. reflexivity. Qed.

Example resolve_unknown_eval :
  resolveComponentDependencies registry ["button"; "not-a-real-component"]
  = Some (Ok (["button"], ["Unknown component: not-a-real-component"])).
Proof. vm_compute. reflexivity. Qed.

Example resolve_constructor_eval :
  resolveComponentDependencies registry ["button"; "constructor"] = Some Throw.
Proof. vm_compute. reflexivity. Qed.


Example trim_eval : trim (String (ascii_of_nat 10) " ab c ") = "ab c".
Proof. reflexivity. Qed.

Example partition_valid_eval :
  partition_valid ["Button"; "nope"; "card"] = (["button"; "card"], ["nope"]).
Proof. vm_compute. reflexivity. Qed.

(* ------------------------------------------------------------------ *)
(** ** Facts about [diamant.json] access *)

Lemma count_insert_sorted x y l :
  count_occ string_dec (insert_sorted x l) y = count_occ string_dec (x :: l) y.
Proof.
  induction l as [|z l IH]; simpl; [reflexivity|].
  destruct (String.leb x z); simpl; [reflexivity|].
  rewrite IH. simpl.
  destruct (string_dec x y), (string_dec z y); reflexivity.
Qed.

Lemma count_sort l y :
  count_occ string_dec (sort l) y = count_occ string_dec l y.
Proof.
  induction l as [|x l IH]; simpl; [reflexivity|].
  rewrite count_insert_sorted. simpl. now rewrite IH.
Qed.

Lemma readConfig_parsed p cfg :
  manifestFile p = Parsed cfg -> readConfig p = (Ok (Some cfg), p).
Proof. intros H. unfold readConfig. now rewrite H. Qed.

Lemma addInstalledComponent_present id p cfg :
  manifestFile p = Parsed cfg -> In id (installedComponents cfg) ->
  addInstalledComponent id p = (Ok tt, p).
Proof.
  intros Hm Hin. unfold addInstalledComponent, bind. rewrite (readConfig_parsed _ _ Hm).
  apply includes_In in Hin. now rewrite Hin.
Qed.

(* ------------------------------------------------------------------ *)
(** ** Claims about the resolver *)

(** C1: for registry components [A] and [B] with
    [A.internalDependencies = [B]] and [B.internalDependencies = []],
    resolving [[A]] yields exactly [A] then [B] (no diagnostic), and
    [getNpmDependencies] on that set is duplicate-free and holds exactly
    the union of [A]'s and [B]'s package dependencies; resolving
    [["carousel"]] yields [["carousel"; "button"]]. *)
Theorem resolve_closure_single_dependency A B dA dB :
  find_own A registry = Some dA -> internalDependencies dA = [B] ->
  find_own B registry = Some dB -> internalDependencies dB = [] ->
  resolveComponentDependencies registry [A] = Some (Ok ([A; B], [])) /\
  (exists deps, getNpmDependencies registry [A; B] = Ok deps /\ NoDup deps /\
     forall x, In x deps <-> In x (dependencies dA) \/ In x (dependencies dB)) /\
  resolveComponentDependencies registry ["carousel"]
  = Some (Ok (["carousel"; "button"], [])).
Proof.
  intros HA HdA HB HdB.
  assert (Hne : A <> B).
  { intros ->. rewrite HA in HB. injection HB as ->. congruence. }
  pose proof (registry_keys_lowercase _ _ HA) as HlA.
  pose proof (registry_keys_lowercase _ _ HB) as HlB.
  assert (HgA : get registry A = Own dA) by (unfold get; now rewrite HA).
  assert (HgB : get registry B = Own dB) by (unfold get; now rewrite HB).
  split; [|split].
  - unfold resolveComponentDependencies, resolve_fuel.
    apply (resolve_loop_single_dep registry _ A B dA dB); try assumption.
    assert (sum_deps registry = 2) by reflexivity. simpl length. lia.
  - unfold getNpmDependencies. cbn [npm_loop]. rewrite HlA, HgA, HlB, HgB.
    destruct (set_add_fold_spec (dependencies dA) [] (NoDup_nil _)) as [Hnd1 Hin1].
    destruct (set_add_fold_spec (dependencies dB) _ Hnd1) as [Hnd2 Hin2].
    eexists. split; [reflexivity|]. split; [exact Hnd2|].
    intros x. rewrite Hin2, Hin1. simpl. tauto.
  - vm_compute. reflexivity.
Qed.

Lemma resolve_closure_single_dependency_witness :
  find_own "carousel" registry = Some (entry "Carousel" "A slideshow component for cycling through elements" ["lucide-react"] ["button"] ["Carousel.tsx"]) /\
  resolveComponentDependencies registry ["carousel"] = Some (Ok (["carousel"; "button"], [])).
Proof.
  split; [reflexivity|].
  exact (proj1 (resolve_closure_single_dependency "carousel" "button" _
                  (entry "Button" "A clickable button with multiple variants and ripple effect" [] [] ["Button.tsx"])
                  eq_refl eq_refl eq_refl eq_refl)).
Defined.

(** C4: [resolveComponentDependencies(["button", "not-a-real-component"])]
    yields [["button"]] with one [Unknown component] warning, but an
    unknown id that names an [Object.prototype] member, such as
    ["constructor"], is found by [registry[normalizedName]] and the loop
    throws a TypeError at [for (const dep of component.internalDependencies)]. *)
Theorem resolve_prototype_key_throws :
  resolveComponentDependencies registry ["button"; "not-a-real-component"]
  = Some (Ok (["button"], ["Unknown component: not-a-real-component"])) /\
  resolveComponentDependencies registry ["button"; "constructor"] = Some Throw /\
  resolveComponentDependencies registry ["__proto__"] = Some Throw.
Proof. split; [|split]; vm_compute; reflexivity. Qed.

(** C5: for every registry, cyclic or not, and every list of requested
    names, the resolver loop exits within one turn per requested name plus
    one per internal dependency edge of the registry: the visited set alone
    bounds it. *)
Theorem resolve_terminates (reg : Registry) (componentNames : list string) :
  resolveComponentDependencies reg componentNames <> None.
Proof.
  unfold resolveComponentDependencies, resolve_fuel.
  apply resolve_loop_total. rewrite open_edges_nil. simpl. lia.
Qed.

Example resolve_cycle_eval :
  resolveComponentDependencies
    [("a", entry "A" "" [] ["b"] ["A.tsx"]); ("b", entry "B" "" [] ["a"] ["B.tsx"])]
    ["a"]
  = Some (Ok (["a"; "b"], [])).
Proof. vm_compute. reflexivity. Qed.

(* ------------------------------------------------------------------ *)
(** ** Claims about [diamant.json] access *)

(** C3: on a parsed manifest whose [installedComponents] has no
    duplicates, [addInstalledComponent id] performs no write when [id] is
    present, and otherwise exactly one full-document write of the list
    with [id] appended and re-sorted; after two calls [id] occurs exactly
    once and at most one write has happened. *)
Theorem addInstalledComponent_idempotent (id : string) (p : Project) (cfg : DiamantConfig) :
  manifestFile p = Parsed cfg -> NoDup (installedComponents cfg) ->
  (In id (installedComponents cfg) -> addInstalledComponent id p = (Ok tt, p)) /\
  (~ In id (installedComponents cfg) ->
     addInstalledComponent id p
     = writeConfig (with_installed cfg (sort (installedComponents cfg ++ [id]))) p) /\
  (let p2 := snd (addInstalledComponent id (snd (addInstalledComponent id p))) in
   exists cfg2, manifestFile p2 = Parsed cfg2 /\
     count_occ string_dec (installedComponents cfg2) id = 1 /\
     manifestWrites p2 = manifestWrites p ++
       (if includes (installedComponents cfg) id then []
        else [with_installed cfg (sort (installedComponents cfg ++ [id]))])).
Proof.
  intros Hm Hnd.
  assert (Hpres : In id (installedComponents cfg) -> addInstalledComponent id p = (Ok tt, p))
    by exact (addInstalledComponent_present id p cfg Hm).
  assert (Habs : ~ In id (installedComponents cfg) ->
     addInstalledComponent id p
     = writeConfig (with_installed cfg (sort (installedComponents cfg ++ [id]))) p).
  { intros Hin. unfold addInstalledComponent, bind. rewrite (readConfig_parsed _ _ Hm).
    destruct (includes (installedComponents cfg) id) eqn:E;
      [apply includes_In in E; contradiction|reflexivity]. }
  split; [exact Hpres|]. split; [exact Habs|].
  simpl.
  destruct (includes (installedComponents cfg) id) eqn:E.
  - apply includes_In in E. rewrite (Hpres E). simpl. rewrite (Hpres E). simpl.
    exists cfg. split; [exact Hm|]. split; [|now rewrite app_nil_r].
    now apply (NoDup_count_occ' string_dec).
  - assert (Hnin : ~ In id (installedComponents cfg))
      by (intros H; apply includes_In in H; congruence).
    rewrite (Habs Hnin). simpl.
    set (cfg' := with_installed cfg (sort (installedComponents cfg ++ [id]))).
    set (p1 := mkProject (componentFiles p) (Parsed cfg') (manifestWrites p ++ [cfg'])
                         (console p)).
    assert (Hc : count_occ string_dec (installedComponents cfg') id = 1).
    { unfold cfg'. simpl. rewrite count_sort, count_occ_app.
      rewrite (proj1 (count_occ_not_In string_dec _ _) Hnin). simpl.
      destruct (string_dec id id); [reflexivity|congruence]. }
    assert (Hin' : In id (installedComponents cfg')).
    { apply (count_occ_In string_dec). lia. }
    assert (Hnd' : NoDup (installedComponents cfg')).
    { apply (NoDup_count_occ string_dec). intros x. unfold cfg'. simpl.
      rewrite count_sort, count_occ_app.
      pose proof (proj1 (NoDup_count_occ string_dec _) Hnd x). simpl.
      destruct (string_dec id x) as [<-|]; [|lia].
      rewrite (proj1 (count_occ_not_In string_dec _ _) Hnin). lia. }
    rewrite (addInstalledComponent_present id p1 cfg' eq_refl Hin'). simpl. exists cfg'. split; [reflexivity|]. split; [exact Hc|reflexivity].
Qed.

Lemma addInstalledComponent_idempotent_witness :
  addInstalledComponent "card"
    (snd (addInstalledComponent "card"
      (mkProject (fun _ => None) (Parsed (with_installed DEFAULT_CONFIG ["button"])) [] [])))
  = (Ok tt, mkProject (fun _ => None)
                      (Parsed (with_installed DEFAULT_CONFIG ["button"; "card"]))
                      [with_installed DEFAULT_CONFIG ["button"; "card"]] []) /\
  (let p2 := snd (addInstalledComponent "card" (snd (addInstalledComponent "card"
      (mkProject (fun _ => None) (Parsed (with_installed DEFAULT_CONFIG ["button"])) [] [])))) in
   exists cfg2, manifestFile p2 = Parsed cfg2 /\
     count_occ string_dec (installedComponents cfg2) "card" = 1 /\
     manifestWrites p2 = [] ++ [with_installed DEFAULT_CONFIG ["button"; "card"]]).
Proof.
  split; [reflexivity|].
  pose proof (addInstalledComponent_idempotent "card"
    (mkProject (fun _ => None) (Parsed (with_installed DEFAULT_CONFIG ["button"])) [] [])
    (with_installed DEFAULT_CONFIG ["button"]) eq_refl
    (NoDup_cons _ (fun H : In "button" [] => H) (NoDup_nil _))) as H.
  exact (proj2 (proj2 H)).
Defined.

(** C10: when [readConfig] yields [null] (the manifest is missing or
    does not parse), [addInstalledComponent] and [removeInstalledComponent]
    return normally, for every id, and leave the project untouched: no
    write, no output, no error. *)
Theorem manifest_helpers_without_manifest (id : string) (p : Project) :
  fst (readConfig p) = Ok None ->
  addInstalledComponent id p = (Ok tt, p) /\ removeInstalledComponent id p = (Ok tt, p).
Proof.
  intros H. unfold readConfig in H. simpl in H.
  unfold addInstalledComponent, removeInstalledComponent, bind, readConfig.
  destruct (manifestFile p); [split; reflexivity|split; reflexivity|discriminate].
Qed.

Lemma manifest_helpers_without_manifest_witness :
  fst (readConfig (mkProject (fun _ => None) Missing [] [])) = Ok None /\
  addInstalledComponent "button" (mkProject (fun _ => None) Missing [] [])
  = (Ok tt, mkProject (fun _ => None) Missing [] []).
Proof.
  assert (H : fst (readConfig (mkProject (fun _ => None) Missing [] [])) = Ok None)
    by reflexivity.
  split; [exact H|].
  exact (proj1 (manifest_helpers_without_manifest "button" _ H)).
Defined.

(* ------------------------------------------------------------------ *)
(** ** Running the commands step by step *)

Lemma bind_ok {A B} (m : M A) (k : A -> M B) p a p' :
  m p = (Ok a, p') -> bind m k p = k a p'.
Proof. intros H. unfold bind. now rewrite H. Qed.

Lemma configExists_parsed p cfg :
  manifestFile p = Parsed cfg -> configExists p = (Ok true, p).
Proof. intros H. unfold configExists. now rewrite H. Qed.

Lemma remove_first_notin x l : NoDup l -> ~ In x (remove_first x l).
Proof.
  induction l as [|y l IH]; simpl; [tauto|].
  intros Hnd. inversion Hnd as [|? ? Hy Hnd']; subst.
  destruct (String.eqb_spec y x) as [->|Hne]; [exact Hy|].
  simpl. intros [H|H]; [congruence|]. exact (IH Hnd' H).
Qed.

Lemma remove_first_keeps x y l : In y l -> y <> x -> In y (remove_first x l).
Proof.
  induction l as [|z l IH]; simpl; [tauto|].
  intros [->|H] Hne.
  - destruct (String.eqb_spec y x); [congruence|now left].
  - destruct (String.eqb_spec z x); [exact H|right; now apply IH].
Qed.

(* ------------------------------------------------------------------ *)
(** ** Claims about [remove] *)

Lemma quiet_seq (a b : M unit) : quiet a -> quiet b -> quiet (a ;; b).
Proof.
  intros Ha Hb q. destruct (Ha q) as (q1 & H1 & C1). destruct (Hb q1) as (q2 & H2 & C2).
  exists q2. unfold bind. rewrite H1, H2. split; [reflexivity|congruence].
Qed.

Lemma quiet_for_each {A} (l : list A) (f : A -> M unit) :
  (forall x, In x l -> quiet (f x)) -> quiet (for_each l f).
Proof.
  induction l as [|x l IH]; intros H; simpl.
  - intros q. exists q. split; reflexivity.
  - apply quiet_seq; [apply H; now left|]. apply IH. intros y Hy. apply H. now right.
Qed.

Lemma quiet_deleteFile f : quiet (deleteFile f).
Proof.
  intros q. unfold deleteFile, bind, fileExists, ret.
  destruct (componentFiles q f); eexists; split; reflexivity.
Qed.

Lemma quiet_removeInstalledComponent n : quiet (removeInstalledComponent n).
Proof.
  intros q. unfold removeInstalledComponent, bind, readConfig, ret, writeConfig.
  destruct (manifestFile q); try (eexists; split; reflexivity).
  destruct (includes _ n); eexists; split; reflexivity.
Qed.

Lemma quiet_remove_one n d : get registry n = Own d -> quiet (remove_one n).
Proof.
  intros H. unfold remove_one. rewrite H. apply quiet_seq.
  - apply quiet_for_each. intros f _. apply quiet_deleteFile.
  - apply quiet_removeInstalledComponent.
Qed.

Lemma get_own_find n d : get registry n = Own d -> find_own n registry = Some d.
Proof.
  unfold get. destruct (find_own n registry); [congruence|].
  destruct (includes object_prototype_keys n); discriminate.
Qed.

Lemma registry_files_nonempty n d : get registry n = Own d -> files d <> [].
Proof.
  intros H. apply get_own_find, find_own_In in H.
  assert (Hall : forallb (fun kd => negb (is_empty (files (snd kd)))) registry = true)
    by (vm_compute; reflexivity).
  rewrite forallb_forall in Hall. apply Hall in H. simpl in H.
  destruct (files d); [discriminate|intros; discriminate].
Qed.

Lemma first_file_exists_pure n d p :
  get registry n = Own d -> first_file_exists n p = (Ok (installed_on_disk p n), p).
Proof.
  intros H. pose proof (registry_files_nonempty _ _ H) as Hne.
  unfold first_file_exists, installed_on_disk, fileExists. rewrite H.
  destruct (files d); [congruence|reflexivity].
Qed.

Lemma filter_installed_pure names p :
  (forall n, In n names -> exists d, get registry n = Own d) ->
  filter_installed names p = (Ok (filter (installed_on_disk p) names), p).
Proof.
  induction names as [|n names IH]; intros H; simpl; [reflexivity|].
  destruct (H n (or_introl eq_refl)) as [d Hd].
  unfold bind at 1. rewrite (first_file_exists_pure _ _ p Hd).
  unfold bind. rewrite IH by (intros m Hm; apply H; now right).
  reflexivity.
Qed.

Lemma partition_valid_spec cs n :
  In n (fst (partition_valid cs)) ->
  exists c, In c cs /\ n = toLowerCase c /\ get registry n <> Undefined.
Proof.
  induction cs as [|c cs IH]; simpl; [tauto|].
  destruct (partition_valid cs) as [v i]. simpl in IH.
  destruct (get registry (toLowerCase c)) eqn:E; simpl.
  - intros [<-|Hin]; [exists c; split; [now left|split; [reflexivity|congruence]]|].
    destruct (IH Hin) as (c' & ? & ? & ?). exists c'. tauto.
  - intros [<-|Hin]; [exists c; split; [now left|split; [reflexivity|congruence]]|].
    destruct (IH Hin) as (c' & ? & ? & ?). exists c'. tauto.
  - intros Hin. destruct (IH Hin) as (c' & ? & ? & ?). exists c'. tauto.
Qed.

(** C7 (counterexample): [button] is on disk and [card] never was;
    [remove button card] deletes [button] and says nothing about [card],
    with or without the confirmation listing. *)
Lemma remove_never_installed_not_reported :
  let p := mkProject (fun f => if String.eqb f "Button.tsx" then Some "button" else None)
                     (Parsed (with_installed DEFAULT_CONFIG ["button"])) [] [] in
  console (snd (remove ["button"; "card"] true false p)) = [MRemoved 1] /\
  console (snd (remove ["button"; "card"] false true p))
  = [MWillRemove ["Button"]; MRemoved 1] /\
  manifestFile (snd (remove ["button"; "card"] true false p))
  = Parsed (with_installed DEFAULT_CONFIG []).
Proof. vm_compute. split; [reflexivity|split; reflexivity]. Qed.

(** C7 (amended): with a parsed manifest and at least one valid id, the
    deletion set is exactly the valid ids whose first file is on disk
    ([present]). When it is empty, [remove] prints the single message
    [None of the specified components are installed.] after the
    unknown-id warning and changes nothing else. Otherwise, once confirmed,
    [remove] runs the deletion loop over [present] only, and its output is
    the unknown-id warning, the dependents warning, the confirmation
    listing of [present] and the final count: no message is printed for a
    valid id whose first file is absent. *)
Theorem remove_absent_ids_dropped (components : list string) (yes answer : bool)
    (p : Project) (cfg : DiamantConfig) :
  manifestFile p = Parsed cfg ->
  (forall c, In c components -> get registry (toLowerCase c) <> Inherited) ->
  fst (partition_valid components) <> [] ->
  let valid := fst (partition_valid components) in
  let invalid := snd (partition_valid components) in
  let present := filter (installed_on_disk p) valid in
  let pre := if is_empty invalid then [] else [MUnknownComponents invalid] in
  (present = [] ->
     remove components yes answer p
     = (Ok tt, with_console p (console p ++ pre ++ [MNoneInstalled]))) /\
  (present <> [] -> yes = true \/ answer = true ->
     let deps := dependents_of present (installedComponents cfg) in
     let msgs := (pre ++ (if is_empty deps then [] else [MDependents (map display deps)])
                  ++ (if yes then [] else [MWillRemove (map display present)]))%list in
     remove components yes answer p
     = (for_each present remove_one ;; log (MRemoved (length present)))
         (with_console p (console p ++ msgs)) /\
     exists p', remove components yes answer p = (Ok tt, p') /\
                console p' = (console p ++ msgs ++ [MRemoved (length present)])%list).
Proof.
  intros Hm Hinh Hv.
  pose proof (partition_valid_spec components) as Hspec.
  destruct (partition_valid components) as [valid invalid] eqn:Ep.
  cbn [fst snd] in Hv, Hspec |- *.
  set (present := filter (installed_on_disk p) valid).
  set (pre := if is_empty invalid then [] else [MUnknownComponents invalid]).
  assert (Hown : forall n, In n valid -> exists d, get registry n = Own d).
  { intros n Hn. destruct (Hspec _ Hn) as (c & Hc & -> & Hu).
    pose proof (Hinh c Hc).
    destruct (get registry (toLowerCase c)) eqn:E; [eauto|congruence|congruence]. }
  unfold remove.
  rewrite (bind_ok _ _ _ _ _ (configExists_parsed _ _ Hm)). cbn [negb].
  rewrite (bind_ok _ _ _ _ _ (readConfig_parsed _ _ Hm)).
  rewrite Ep.
  rewrite (bind_ok _ _ p tt (with_console p (console p ++ pre)))
    by (unfold pre; destruct (is_empty invalid);
        [cbn; rewrite app_nil_r; now destruct p | reflexivity]).
  destruct (is_empty valid) eqn:Ev; [destruct valid; [contradiction|discriminate]|].
  rewrite (bind_ok _ _ _ _ _ (filter_installed_pure _ _ Hown)).
  change (filter (installed_on_disk (with_console p (console p ++ pre))) valid) with present.
  split.
  - intros Hp. rewrite Hp. cbn [is_empty]. unfold log, with_console. cbn.
    now rewrite app_assoc.
  - intros Hp Hy.
    set (deps := dependents_of present (installedComponents cfg)).
    set (msgs := (pre ++ (if is_empty deps then [] else [MDependents (map display deps)])
                  ++ (if yes then [] else [MWillRemove (map display present)]))%list).
    destruct (is_empty present) eqn:Epr; [destruct present; [contradiction|discriminate]|].
    fold deps.
    set (q1 := with_console p (console p ++ pre ++
                 (if is_empty deps then [] else [MDependents (map display deps)]))%list).
    rewrite (bind_ok _ _ _ tt q1)
      by (unfold q1; destruct (is_empty deps); cbn; [now rewrite app_nil_r|now rewrite app_assoc]).
    assert (Hc : (if yes then ret true
                  else (log (MWillRemove (map display present)) ;; ret answer)) q1
                 = (Ok true, with_console p (console p ++ msgs))).
    { unfold msgs, q1. destruct yes.
      - cbn. now rewrite app_nil_r.
      - destruct Hy as [Hy | ->]; [discriminate|]. cbn. now rewrite <- !app_assoc. }
    rewrite (bind_ok _ _ _ _ _ Hc). cbn [negb].
    split; [reflexivity|].
    assert (Hq : quiet (for_each present remove_one)).
    { apply quiet_for_each. intros n Hn. apply filter_In in Hn.
      destruct (Hown n (proj1 Hn)) as [d Hd]. exact (quiet_remove_one _ _ Hd). }
    destruct (Hq (with_console p (console p ++ msgs))) as (q2 & Hq2 & Cq2).
    rewrite (bind_ok _ _ _ _ _ Hq2). eexists. split; [reflexivity|].
    cbn. rewrite Cq2. cbn. now rewrite <- app_assoc.
Qed.

Lemma remove_absent_ids_dropped_witness :
  let p := mkProject (fun f => if String.eqb f "Button.tsx" then Some "button" else None)
                     (Parsed (with_installed DEFAULT_CONFIG ["button"])) [] [] in
  exists p', remove ["button"; "card"] true false p = (Ok tt, p') /\
             console p' = [MRemoved 1].
Proof.
  intros p.
  destruct (remove_absent_ids_dropped ["button"; "card"] true false p
              (with_installed DEFAULT_CONFIG ["button"]) eq_refl) as [_ H].
  - intros c [<-|[<-|[]]]; vm_compute; discriminate.
  - vm_compute. discriminate.
  - destruct (H ltac:(vm_compute; discriminate) (or_introl eq_refl)) as [_ [p' [E C]]].
    exists p'. split; [exact E|]. rewrite C. vm_compute. reflexivity.
Defined.

(** C8 (counterexample): [button] is in the manifest but [Button.tsx] is
    gone; [update] with no arguments prints only [All components are up to
    date!]: the missing component is not mentioned. *)
Lemma update_missing_counterexample :
  console (snd (update (fun _ => None) (fun _ => true) "next" [] true false
     (mkProject (fun _ => None) (Parsed (with_installed DEFAULT_CONFIG ["button"])) [] [])))
  = [MAllUpToDate].
Proof. vm_compute. reflexivity. Qed.

(** C8 (amended): for a registry component whose first file is absent on
    disk, [diff] reports it distinctly (the status summary prints a
    [missing] line for it, and [diff <name>] prints that it is not
    installed), while [update] skips it silently: it is never a candidate,
    and [update <name>] prints only that everything is up to date. *)
Theorem missing_on_disk_reported templates writable projectType diffLines cfg nm d f0 rest yes answer p :
  manifestFile p = Parsed cfg ->
  find_own nm registry = Some d -> files d = f0 :: rest ->
  componentFiles p f0 = None ->
  diff_entry templates projectType diffLines cfg nm p
  = (Ok false, with_console p (console p ++ [MStatusMissing (name d)])) /\
  diff templates projectType diffLines (Some nm) p
  = (Ok tt, with_console p (console p ++ [MComponentNotInstalled (name d)])) /\
  update_entry templates projectType cfg nm p = (Ok None, p) /\
  update templates writable projectType [nm] yes answer p
  = (Ok tt, with_console p (console p ++ [MAllUpToDate])).
Proof.
  intros Hm Hf Hfiles Hp.
  assert (Hg : get registry nm = Own d) by (unfold get; now rewrite Hf).
  assert (Hl := registry_keys_lowercase _ _ Hf).
  assert (He : String.eqb nm EmptyString = false)
    by (destruct nm; [vm_compute in Hf; discriminate | reflexivity]).
  assert (Hu : update_entry templates projectType cfg nm p = (Ok None, p)).
  { unfold update_entry. rewrite Hl, Hg, Hfiles.
    unfold bind at 1, fileExists. rewrite Hp. reflexivity. }
  split; [|split; [|split; [exact Hu|]]].
  - unfold diff_entry. rewrite Hg, Hfiles. unfold bind at 1, fileExists. rewrite Hp. reflexivity.
  - unfold diff.
    rewrite (bind_ok _ _ _ _ _ (configExists_parsed _ _ Hm)). cbn [negb].
    rewrite (bind_ok _ _ _ _ _ (readConfig_parsed _ _ Hm)).
    rewrite He. cbv zeta. rewrite Hl, Hg, Hfiles.
    unfold bind, fileExists. rewrite Hp. cbn. reflexivity.
  - unfold update.
    rewrite (bind_ok _ _ _ _ _ (configExists_parsed _ _ Hm)). cbn [negb].
    rewrite (bind_ok _ _ _ _ _ (readConfig_parsed _ _ Hm)). cbn [is_empty].
    assert (Hc : update_check templates projectType cfg [nm] p = (Ok [], p)).
    { cbn [update_check]. rewrite (bind_ok _ _ _ _ _ Hu). reflexivity. }
    rewrite (bind_ok _ _ _ _ _ Hc). reflexivity.
Qed.

Lemma missing_on_disk_reported_witness :
  let p := mkProject (fun _ => None) (Parsed (with_installed DEFAULT_CONFIG ["button"])) [] [] in
  update (fun _ => None) (fun _ => true) "next" ["button"] true false p
  = (Ok tt, with_console p (console p ++ [MAllUpToDate])).
Proof.
  intros p.
  pose (d := match find_own "button" registry with
             | Some d => d | None => entry "" "" [] [] [] end).
  exact (proj2 (proj2 (proj2
    (missing_on_disk_reported (fun _ => None) (fun _ => true) "next" (fun _ _ => [])
       (with_installed DEFAULT_CONFIG ["button"]) "button" d "Button.tsx" [] true false p
       eq_refl ltac:(vm_compute; reflexivity) ltac:(vm_compute; reflexivity) eq_refl)))).
Defined.

(** C9: if the local copy of a component's first file holds exactly the
    transformed template content, [diff] classifies it as up to date
    (summary line and single-component view) and [update] records it with
    no changes. *)
Theorem transform_roundtrip_up_to_date templates projectType diffLines cfg nm d f0 rest src p :
  find_own nm registry = Some d -> files d = f0 :: rest -> templates f0 = Some src ->
  componentFiles p f0 = Some (transformContent (utilsImportPathOf projectType cfg) src) ->
  diff_entry templates projectType diffLines cfg nm p
  = (Ok false, with_console p (console p ++ [MStatusUpToDate (name d)])) /\
  showDiff templates projectType diffLines cfg nm p
  = (Ok tt, with_console p (console p ++ [MUpToDate (name d)])) /\
  update_entry templates projectType cfg nm p = (Ok (Some (nm, false)), p).
Proof.
  intros Hf Hfiles Ht Hp.
  assert (Hg : get registry nm = Own d) by (unfold get; now rewrite Hf).
  split; [|split].
  - unfold diff_entry. rewrite Hg, Hfiles. unfold bind at 1, fileExists. rewrite Hp. cbn [negb].
    unfold try_catch, bind, readLocal, readTemplate. rewrite Hp, Ht.
    rewrite String.eqb_refl. reflexivity.
  - unfold showDiff. rewrite Hg, Hfiles.
    unfold try_catch, bind, readLocal, readTemplate. rewrite Hp, Ht.
    rewrite String.eqb_refl. reflexivity.
  - unfold update_entry. rewrite (registry_keys_lowercase _ _ Hf), Hg, Hfiles.
    unfold bind at 1, fileExists. rewrite Hp. cbn [negb].
    unfold try_catch, bind, readLocal, readTemplate. rewrite Hp, Ht.
    rewrite String.eqb_refl. reflexivity.
Qed.

Lemma transform_roundtrip_up_to_date_witness :
  let src := ("import { cn } from " ++ dq ++ "../../lib/utils" ++ dq ++ ";")%string in
  let p := mkProject (fun f => if String.eqb f "Button.tsx"
                               then Some (transformContent (utilsImportPathOf "next" DEFAULT_CONFIG) src)
                               else None)
                     (Parsed DEFAULT_CONFIG) [] [] in
  update_entry (fun f => if String.eqb f "Button.tsx" then Some src else None) "next"
               DEFAULT_CONFIG "button" p = (Ok (Some ("button", false)), p).
Proof.
  intros src p.
  pose (d := match find_own "button" registry with
             | Some d => d | None => entry "" "" [] [] [] end).
  exact (proj2 (proj2
    (transform_roundtrip_up_to_date (fun f => if String.eqb f "Button.tsx" then Some src else None)
       "next" (fun _ _ => []) DEFAULT_CONFIG "button" d "Button.tsx" [] src p
       ltac:(vm_compute; reflexivity) ltac:(vm_compute; reflexivity) eq_refl eq_refl))).
Defined.


(* ------------------------------------------------------------------ *)
(** ** Further facts about the registry, [diamant.json], paths and the
       Content Transform *)



Lemma pop_spec {A} (l : list A) x r : pop l = Some (x, r) -> l = r ++ [x].
Proof.
  unfold pop. intros H. destruct (rev l) as [|y r'] eqn:E; [discriminate|].
  injection H as <- <-. rewrite <- (rev_involutive l), E. reflexivity.
Qed.

Lemma pop_none {A} (l : list A) : pop l = None -> l = [].
Proof.
  unfold pop. destruct (rev l) eqn:E; [|discriminate].
  intros _. rewrite <- (rev_involutive l), E. reflexivity.
Qed.

Lemma get_own_find_own reg k d : get reg k = Own d -> find_own k reg = Some d.
Proof.
  unfold get. destruct (find_own k reg); [congruence|].
  destruct (includes object_prototype_keys k); discriminate.
Qed.

Lemma get_undefined_find_own reg k : get reg k = Undefined -> find_own k reg = None.
Proof.
  unfold get. destruct (find_own k reg); [discriminate|]. reflexivity.
Qed.

Section ResolveInv.

Variable reg : Registry.

Definition own_keys (l : list string) : Prop :=
  forall x, In x l -> exists d, find_own x reg = Some d.

(** The general invariant of the loop, proved once. *)
Lemma resolve_loop_inv fuel resolved warnings tp r w :
  resolve_loop reg fuel resolved warnings tp = Some (Ok (r, w)) ->
  NoDup resolved -> own_keys resolved ->
  NoDup r /\ own_keys r /\ incl resolved r /\ incl warnings w /\
  (forall x, In x tp -> (exists d, get reg (toLowerCase x) = Own d) -> In (toLowerCase x) r) /\
  (forall x, In x tp -> get reg (toLowerCase x) = Undefined ->
             In ("Unknown component: " ++ x)%string w).
Proof.
  revert resolved warnings tp.
  induction fuel as [|fuel IH]; intros resolved warnings tp Hrun Hnd Hown; simpl in Hrun.
  - destruct (pop tp) as [[nm rest]|] eqn:Hp; [discriminate|].
    apply pop_none in Hp. subst tp. injection Hrun as <- <-.
    repeat split; try assumption; try (intros x []); apply incl_refl.
  - destruct (pop tp) as [[nm rest]|] eqn:Hp.
    2:{ apply pop_none in Hp. subst tp. injection Hrun as <- <-.
        repeat split; try assumption; try (intros x []); apply incl_refl. }
    apply pop_spec in Hp. subst tp.
    destruct (includes resolved (toLowerCase nm)) eqn:Hinc.
    + destruct (IH _ _ _ Hrun Hnd Hown) as (H1 & H2 & H3 & H4 & H5 & H6).
      repeat split; try assumption.
      * intros x Hx Hd. apply in_app_or in Hx as [Hx|[<-|[]]]; [now apply H5|].
        apply H3. now apply includes_In.
      * intros x Hx Hu. apply in_app_or in Hx as [Hx|[<-|[]]]; [now apply H6|].
        apply includes_In, Hown in Hinc. destruct Hinc as [d Hd].
        apply get_undefined_find_own in Hu. congruence.
    + destruct (get reg (toLowerCase nm)) as [d| |] eqn:Hget; [| discriminate |].
      * assert (Hnd' : NoDup (resolved ++ [toLowerCase nm])).
        { apply NoDup_app; [exact Hnd | constructor; [intros []|constructor] |].
          intros x Hx [<-|[]]. apply includes_In in Hx. congruence. }
        assert (Hown' : own_keys (resolved ++ [toLowerCase nm])).
        { intros x Hx. apply in_app_or in Hx as [Hx|[<-|[]]]; [now apply Hown|].
          exists d. now apply get_own_find_own. }
        destruct (IH _ _ _ Hrun Hnd' Hown') as (H1 & H2 & H3 & H4 & H5 & H6).
        repeat split; try assumption.
        -- intros x Hx. apply H3, in_or_app. now left.
        -- intros x Hx Hd. apply in_app_or in Hx as [Hx|[<-|[]]].
           ++ apply H5; [|exact Hd]. apply in_or_app. now left.
           ++ apply H3, in_or_app. right. now left.
        -- intros x Hx Hu. apply in_app_or in Hx as [Hx|[<-|[]]].
           ++ apply H6; [|exact Hu]. apply in_or_app. now left.
           ++ congruence.
      * destruct (IH _ _ _ Hrun Hnd Hown) as (H1 & H2 & H3 & H4 & H5 & H6).
        repeat split; try assumption.
        -- intros x Hx. apply H4, in_or_app. now left.
        -- intros x Hx Hd. apply in_app_or in Hx as [Hx|[<-|[]]]; [now apply H5|].
           destruct Hd as [d Hd]. congruence.
        -- intros x Hx Hu. apply in_app_or in Hx as [Hx|[<-|[]]]; [now apply H6|].
           apply H4, in_or_app. right. now left.
Qed.

(** Closure under [internalDependencies] when every dependency named in the
    registry is a lower-case own key. *)
Definition deps_pending (resolved tp : list string) : Prop :=
  forall y d, In y resolved -> find_own y reg = Some d ->
  forall dep, In dep (internalDependencies d) -> In dep resolved \/ In dep tp.

Lemma registry_wf_spec k d dep :
  registry_wf reg = true -> find_own k reg = Some d -> In dep (internalDependencies d) ->
  toLowerCase dep = dep /\ exists d', find_own dep reg = Some d'.
Proof.
  intros Hwf Hf Hdep. apply find_own_In in Hf.
  unfold registry_wf in Hwf. rewrite forallb_forall in Hwf.
  specialize (Hwf _ Hf). rewrite forallb_forall in Hwf.
  specialize (Hwf _ Hdep). apply andb_prop in Hwf as [H1 H2].
  split; [now apply String.eqb_eq|].
  destruct (find_own dep reg) as [d'|]; [now exists d'|discriminate].
Qed.

Lemma resolve_loop_closed fuel resolved warnings tp r w :
  registry_wf reg = true ->
  resolve_loop reg fuel resolved warnings tp = Some (Ok (r, w)) ->
  deps_pending resolved tp -> deps_pending r [].
Proof.
  intros Hwf. revert resolved warnings tp.
  induction fuel as [|fuel IH]; intros resolved warnings tp Hrun Hinv; simpl in Hrun.
  - destruct (pop tp) as [[nm rest]|] eqn:Hp; [discriminate|].
    apply pop_none in Hp. subst tp. now injection Hrun as <- <-.
  - destruct (pop tp) as [[nm rest]|] eqn:Hp.
    2:{ apply pop_none in Hp. subst tp. now injection Hrun as <- <-. }
    apply pop_spec in Hp. subst tp.
    destruct (includes resolved (toLowerCase nm)) eqn:Hinc.
    + apply (IH _ _ _ Hrun). intros y d Hy Hd dep Hdep.
      destruct (Hinv y d Hy Hd dep Hdep) as [H|H]; [now left|].
      apply in_app_or in H as [H|[<-|[]]]; [now right|left].
      destruct (registry_wf_spec _ _ _ Hwf Hd Hdep) as [Hl _].
      rewrite <- Hl. now apply includes_In.
    + destruct (get reg (toLowerCase nm)) as [c| |] eqn:Hget; [| discriminate |].
      * apply (IH _ _ _ Hrun). intros y d Hy Hd dep Hdep.
        apply in_app_or in Hy as [Hy|[<-|[]]].
        -- destruct (Hinv y d Hy Hd dep Hdep) as [H|H].
           ++ left. apply in_or_app. now left.
           ++ apply in_app_or in H as [H|[<-|[]]].
              ** right. apply in_or_app. now left.
              ** left. apply in_or_app. right. left.
                 now destruct (registry_wf_spec _ _ _ Hwf Hd Hdep) as [Hl _].
        -- apply get_own_find_own in Hget. rewrite Hget in Hd. injection Hd as <-.
           destruct (includes (resolved ++ [toLowerCase nm]) dep) eqn:Hi.
           ++ left. now apply includes_In.
           ++ right. apply in_or_app. right. apply filter_In. rewrite Hi. now split.
      * apply (IH _ _ _ Hrun). intros y d Hy Hd dep Hdep.
        destruct (Hinv y d Hy Hd dep Hdep) as [H|H]; [now left|].
        apply in_app_or in H as [H|[<-|[]]]; [now right|].
        destruct (registry_wf_spec _ _ _ Hwf Hd Hdep) as [Hl [d' Hd']].
        apply get_undefined_find_own in Hget. congruence.
Qed.

End ResolveInv.

Lemma npm_loop_spec reg names deps :
  NoDup deps ->
  (forall n, In n names -> get reg (toLowerCase n) <> Inherited) ->
  exists l, npm_loop reg deps names = Ok l /\ NoDup l /\
    forall x, In x l <-> In x deps \/
      exists n c, In n names /\ get reg (toLowerCase n) = Own c /\ In x (dependencies c).
Proof.
  revert deps. induction names as [|n names IH]; intros deps Hnd Hinh; simpl.
  - exists deps. repeat split; [exact Hnd| |]; [tauto|].
    intros [H|(n & c & [] & _)]; exact H.
  - destruct (get reg (toLowerCase n)) as [c| |] eqn:Hg.
    + destruct (set_add_fold_spec (dependencies c) deps Hnd) as [Hnd' Hin'].
      destruct (IH _ Hnd') as (l & Hl & Hndl & Hinl); [intros m Hm; apply Hinh; now right|].
      exists l. repeat split; [exact Hl|exact Hndl| |].
      * intros Hx. apply Hinl in Hx as [Hx|(m & c' & Hm & Hg' & Hx)].
        -- apply Hin' in Hx as [Hx|Hx]; [now left|right].
           exists n, c. repeat split; [now left|exact Hg|exact Hx].
        -- right. exists m, c'. repeat split; [now right|exact Hg'|exact Hx].
      * intros [Hx|(m & c' & [<-|Hm] & Hg' & Hx)]; apply Hinl.
        -- left. apply Hin'. now left.
        -- left. apply Hin'. right. congruence.
        -- right. exists m, c'. now repeat split.
    + exfalso. apply (Hinh n); [now left|exact Hg].
    + destruct (IH _ Hnd) as (l & Hl & Hndl & Hinl); [intros m Hm; apply Hinh; now right|].
      exists l. repeat split; [exact Hl|exact Hndl| |].
      * intros Hx. apply Hinl in Hx as [Hx|(m & c' & Hm & Hg' & Hx)]; [now left|].
        right. exists m, c'. repeat split; [now right|exact Hg'|exact Hx].
      * intros [Hx|(m & c' & [<-|Hm] & Hg' & Hx)]; apply Hinl.
        -- now left.
        -- congruence.
        -- right. exists m, c'. now repeat split.
Qed.

(** X1: the names [resolveComponentDependencies] returns are distinct own keys of the registry. *)
Theorem resolve_distinct_own_keys reg names r w :
  resolveComponentDependencies reg names = Some (Ok (r, w)) ->
  NoDup r /\ forall x, In x r -> exists d, get reg x = Own d.
Proof.
  intros H. destruct (resolve_loop_inv reg _ _ _ _ _ _ H) as (H1 & H2 & _);
    [constructor | intros x [] |].
  split; [exact H1|]. intros x Hx. destruct (H2 x Hx) as [d Hd].
  exists d. unfold get. now rewrite Hd.
Qed.

Lemma resolve_distinct_own_keys_witness :
  NoDup ["carousel"; "button"] /\
  forall x, In x ["carousel"; "button"] -> exists d, get registry x = Own d.
Proof.
  apply (resolve_distinct_own_keys registry ["carousel"] _ []).
  vm_compute. reflexivity.
Defined.

Lemma resolve_loop_not_inherited reg fuel resolved warnings tp r w :
  resolve_loop reg fuel resolved warnings tp = Some (Ok (r, w)) ->
  own_keys reg resolved ->
  forall x, In x tp -> get reg (toLowerCase x) <> Inherited.
Proof.
  revert resolved warnings tp.
  induction fuel as [|fuel IH]; intros resolved warnings tp Hrun Hown; simpl in Hrun.
  - destruct (pop tp) as [[nm rest]|] eqn:Hp; [discriminate|].
    apply pop_none in Hp. subst tp. intros x [].
  - destruct (pop tp) as [[nm rest]|] eqn:Hp.
    2:{ apply pop_none in Hp. subst tp. intros x []. }
    apply pop_spec in Hp. subst tp. intros x Hx.
    destruct (includes resolved (toLowerCase nm)) eqn:Hinc.
    + apply in_app_or in Hx as [Hx|[<-|[]]]; [exact (IH _ _ _ Hrun Hown x Hx)|].
      apply includes_In, Hown in Hinc. destruct Hinc as [d Hd].
      unfold get. rewrite Hd. discriminate.
    + destruct (get reg (toLowerCase nm)) as [d| |] eqn:Hget; [| discriminate |].
      * assert (Hown' : own_keys reg (resolved ++ [toLowerCase nm])).
        { intros y Hy. apply in_app_or in Hy as [Hy|[<-|[]]]; [now apply Hown|].
          exists d. now apply get_own_find_own. }
        apply in_app_or in Hx as [Hx|[<-|[]]]; [|rewrite Hget; discriminate].
        apply (IH _ _ _ Hrun Hown'). apply in_or_app. now left.
      * apply in_app_or in Hx as [Hx|[<-|[]]]; [exact (IH _ _ _ Hrun Hown x Hx)|].
        rewrite Hget. discriminate.
Qed.

(** X2: every requested name is accounted for: a known one (lower-cased) is in the result, an unknown one gets a warning. *)
Theorem resolve_requested_accounted reg names r w :
  resolveComponentDependencies reg names = Some (Ok (r, w)) ->
  forall x, In x names ->
    get reg (toLowerCase x) <> Inherited /\
    (forall d, get reg (toLowerCase x) = Own d -> In (toLowerCase x) r) /\
    (get reg (toLowerCase x) = Undefined -> In ("Unknown component: " ++ x)%string w).
Proof.
  intros H x Hx.
  destruct (resolve_loop_inv reg _ _ _ _ _ _ H) as (_ & _ & _ & _ & H5 & H6);
    [constructor | intros y [] |].
  split; [exact (resolve_loop_not_inherited reg _ _ _ _ _ _ H (fun y (Hy : In y []) => match Hy with end) x Hx)|].
  split.
  - intros d Hd. apply H5; [exact Hx|now exists d].
  - now apply H6.
Qed.

Lemma resolve_requested_accounted_witness :
  get registry (toLowerCase "Carousel") <> Inherited /\
  (forall d, get registry (toLowerCase "Carousel") = Own d ->
             In (toLowerCase "Carousel") ["carousel"; "button"]) /\
  (get registry (toLowerCase "Carousel") = Undefined ->
   In ("Unknown component: " ++ "Carousel")%string ["Unknown component: nope"]).
Proof.
  apply (resolve_requested_accounted registry ["nope"; "Carousel"]).
  - vm_compute. reflexivity.
  - right. left. reflexivity.
Defined.

(** X3: on a well-formed registry the result is closed under [internalDependencies]. *)
Theorem resolve_dependency_closed reg names r w :
  registry_wf reg = true ->
  resolveComponentDependencies reg names = Some (Ok (r, w)) ->
  forall y d, In y r -> get reg y = Own d -> incl (internalDependencies d) r.
Proof.
  intros Hwf H y d Hy Hd dep Hdep.
  assert (Hc := resolve_loop_closed reg _ _ _ _ _ _ Hwf H).
  destruct (Hc (fun y d (Hy : In y []) => match Hy with end) y d Hy
               (get_own_find_own _ _ _ Hd) dep Hdep) as [H'|[]].
  exact H'.
Qed.

Lemma resolve_dependency_closed_witness :
  registry_wf registry = true /\
  resolveComponentDependencies registry ["carousel"; "alertdialog"]
    = Some (Ok (["alertdialog"; "button"; "carousel"], [])) /\
  incl (internalDependencies (entry "AlertDialog"
          "A modal dialog that interrupts the user with important content"
          ["lucide-react"] ["button"] ["AlertDialog.tsx"]))
       ["alertdialog"; "button"; "carousel"].
Proof.
  split; [vm_compute; reflexivity|]. split; [vm_compute; reflexivity|].
  refine (resolve_dependency_closed registry ["carousel"; "alertdialog"] _ [] _ _ "alertdialog" _ _ _).
  - vm_compute. reflexivity.
  - vm_compute. reflexivity.
  - simpl. tauto.
  - vm_compute. reflexivity.
Defined.

(** X4: [getNpmDependencies] returns, without duplicates, exactly the npm dependencies of the known requested components. *)
Theorem getNpmDependencies_union reg names :
  (forall n, In n names -> get reg (toLowerCase n) <> Inherited) ->
  exists l, getNpmDependencies reg names = Ok l /\ NoDup l /\
    forall x, In x l <->
      exists n c, In n names /\ get reg (toLowerCase n) = Own c /\ In x (dependencies c).
Proof.
  intros Hinh.
  destruct (npm_loop_spec reg names [] (NoDup_nil _) Hinh) as (l & Hl & Hnd & Hin).
  exists l. repeat split; [exact Hl|exact Hnd| |].
  - intros Hx. apply Hin in Hx as [[]|Hx]. exact Hx.
  - intros Hx. apply Hin. now right.
Qed.

Lemma getNpmDependencies_union_witness :
  exists l, getNpmDependencies registry ["Carousel"; "button"; "nope"] = Ok l /\ NoDup l /\
    forall x, In x l <->
      exists n c, In n ["Carousel"; "button"; "nope"] /\
                  get registry (toLowerCase n) = Own c /\ In x (dependencies c).
Proof.
  apply getNpmDependencies_union.
  intros n [<-|[<-|[<-|[]]]]; vm_compute; discriminate.
Defined.





Lemma string_leb_trans a b c :
  String.leb a b = true -> String.leb b c = true -> String.leb a c = true.
Proof.
  unfold String.leb. revert b c.
  induction a as [|x a IH]; intros [|y b] [|z c]; simpl; auto; try discriminate.
  unfold Ascii.compare.
  destruct (N.compare_spec (N_of_ascii x) (N_of_ascii y)) as [H1|H1|H1];
  destruct (N.compare_spec (N_of_ascii y) (N_of_ascii z)) as [H2|H2|H2];
  destruct (N.compare_spec (N_of_ascii x) (N_of_ascii z)) as [H3|H3|H3];
  try lia; try discriminate; auto.
  apply IH.
Qed.

Lemma str_le_trans : forall a b c, str_le a b -> str_le b c -> str_le a c.
Proof. intros a b c. apply string_leb_trans. Qed.

Lemma str_le_not a b : String.leb a b = false -> str_le b a.
Proof. intros H. destruct (String.leb_total a b) as [H'|H']; [congruence|exact H']. Qed.

Lemma insert_sorted_perm x l : Permutation (insert_sorted x l) (x :: l).
Proof.
  induction l as [|y l IH]; simpl; [reflexivity|].
  destruct (String.leb x y); [reflexivity|].
  rewrite IH. apply perm_swap.
Qed.

Lemma sort_perm l : Permutation (sort l) l.
Proof.
  induction l as [|x l IH]; simpl; [reflexivity|].
  rewrite insert_sorted_perm. now apply perm_skip.
Qed.

Lemma insert_sorted_hd z x l : HdRel str_le z l -> str_le z x -> HdRel str_le z (insert_sorted x l).
Proof.
  intros Hd Hzx. destruct l as [|y l]; simpl; [now constructor|].
  destruct (String.leb x y); constructor; [exact Hzx|]. now inversion Hd.
Qed.

Lemma insert_sorted_sorted x l : Sorted str_le l -> Sorted str_le (insert_sorted x l).
Proof.
  induction 1 as [|y l Hs IH Hd]; simpl; [now repeat constructor|].
  destruct (String.leb x y) eqn:E.
  - constructor; [now constructor|]. now constructor.
  - constructor; [exact IH|]. apply insert_sorted_hd; [exact Hd|]. now apply str_le_not.
Qed.

Lemma sort_sorted l : Sorted str_le (sort l).
Proof. induction l; simpl; [constructor|]. now apply insert_sorted_sorted. Qed.

Lemma sorted_unique l1 l2 :
  Sorted str_le l1 -> Sorted str_le l2 -> Permutation l1 l2 -> l1 = l2.
Proof.
  intros H1 H2. apply (@Sorted_StronglySorted string str_le str_le_trans) in H1, H2.
  revert l2 H2. induction H1 as [|a l1 Hs1 IH Hall1]; intros l2 H2 Hp.
  - symmetry. now apply Permutation_nil.
  - destruct H2 as [|b l2 Hs2 Hall2].
    { apply Permutation_sym, Permutation_nil in Hp. discriminate. }
    assert (Hab : a = b).
    { destruct (Permutation_in a Hp (or_introl eq_refl)) as [->|Ha]; [reflexivity|].
      destruct (Permutation_in b (Permutation_sym Hp) (or_introl eq_refl)) as [->|Hb];
        [reflexivity|].
      apply String.leb_antisym.
      - exact (proj1 (Forall_forall _ _) Hall1 b Hb).
      - exact (proj1 (Forall_forall _ _) Hall2 a Ha). }
    subst b. f_equal. apply IH; [exact Hs2|]. exact (Permutation_cons_inv Hp).
Qed.

Lemma sorted_sort_id l : Sorted str_le l -> sort l = l.
Proof.
  intros H. apply sorted_unique; [apply sort_sorted|exact H|apply sort_perm].
Qed.

Lemma remove_first_insert_sorted x l :
  ~ In x l -> remove_first x (insert_sorted x l) = l.
Proof.
  induction l as [|y l IH]; intros Hx; simpl; [now rewrite String.eqb_refl|].
  destruct (String.leb x y); simpl; [now rewrite String.eqb_refl|].
  destruct (String.eqb_spec y x) as [->|_]; [exfalso; apply Hx; now left|].
  rewrite IH; [reflexivity|]. intros H. apply Hx. now right.
Qed.

Lemma count_remove_first x l y :
  In x l ->
  count_occ string_dec (remove_first x l) y
  = if String.eqb y x then count_occ string_dec l y - 1 else count_occ string_dec l y.
Proof.
  induction l as [|z l IH]; intros Hx; [destruct Hx|]. cbn [remove_first].
  destruct (String.eqb_spec z x) as [Ezx|Hzx].
  - subst z.
    destruct (String.eqb_spec y x) as [Eyx|Hyx].
    + subst y. rewrite count_occ_cons_eq by reflexivity. lia.
    + rewrite count_occ_cons_neq by congruence. reflexivity.
  - destruct Hx as [Hx|Hx]; [congruence|].
    destruct (string_dec z y) as [Ezy|Hzy].
    + subst z. rewrite !count_occ_cons_eq by reflexivity. rewrite (IH Hx).
      destruct (String.eqb_spec y x); [congruence|reflexivity].
    + rewrite !count_occ_cons_neq by exact Hzy. exact (IH Hx).
Qed.

Lemma count_occ_pos x l : In x l -> count_occ string_dec l x > 0.
Proof. apply count_occ_In. Qed.

Lemma with_installed_self cfg : with_installed cfg (installedComponents cfg) = cfg.
Proof. now destruct cfg. Qed.

Lemma includes_false l x : ~ In x l -> includes l x = false.
Proof.
  intros H. destruct (includes l x) eqn:E; [|reflexivity].
  exfalso. apply H. now apply includes_In.
Qed.

Lemma sort_snoc_sorted l x :
  Sorted str_le l -> sort (l ++ [x]) = insert_sorted x l.
Proof.
  intros Hs. apply sorted_unique.
  - apply sort_sorted.
  - now apply insert_sorted_sorted.
  - rewrite sort_perm, insert_sorted_perm. symmetry. apply Permutation_cons_append.
Qed.

(** X5: [addInstalledComponent] of a new id yields a sorted permutation of the old list plus the id, and touches nothing else. *)
Theorem addInstalledComponent_sorted id p cfg :
  manifestFile p = Parsed cfg -> ~ In id (installedComponents cfg) ->
  let (r, p') := addInstalledComponent id p in
  r = Ok tt /\ componentFiles p' = componentFiles p /\ console p' = console p /\
  exists l, manifestFile p' = Parsed (with_installed cfg l) /\
            Sorted str_le l /\ Permutation l (id :: installedComponents cfg).
Proof.
  intros Hm Hin. unfold addInstalledComponent, bind. rewrite (readConfig_parsed _ _ Hm).
  rewrite (includes_false _ _ Hin). simpl.
  repeat split. eexists. split; [reflexivity|]. split; [apply sort_sorted|].
  rewrite sort_perm. symmetry. apply Permutation_cons_append.
Qed.

Lemma addInstalledComponent_sorted_witness :
  let p := mkProject (fun _ => None) (Parsed (with_installed DEFAULT_CONFIG ["card"; "alert"])) [] [] in
  let (r, p') := addInstalledComponent "button" p in
  r = Ok tt /\ componentFiles p' = componentFiles p /\ console p' = console p /\
  exists l, manifestFile p' = Parsed (with_installed (with_installed DEFAULT_CONFIG ["card"; "alert"]) l) /\
            Sorted str_le l /\ Permutation l ["button"; "card"; "alert"].
Proof.
  apply (addInstalledComponent_sorted "button" _ (with_installed DEFAULT_CONFIG ["card"; "alert"])).
  - reflexivity.
  - simpl. intros [H|[H|[]]]; discriminate.
Defined.

(** X6: adding then removing a new id restores a sorted manifest exactly. *)
Theorem add_remove_roundtrip id p cfg :
  manifestFile p = Parsed cfg -> Sorted str_le (installedComponents cfg) ->
  ~ In id (installedComponents cfg) ->
  manifestFile (snd ((addInstalledComponent id ;; removeInstalledComponent id) p)) = Parsed cfg.
Proof.
  intros Hm Hs Hin. unfold addInstalledComponent, bind at 1. unfold bind at 1.
  rewrite (readConfig_parsed _ _ Hm). rewrite (includes_false _ _ Hin). simpl.
  unfold removeInstalledComponent, bind, readConfig. simpl.
  rewrite (sort_snoc_sorted _ _ Hs).
  assert (Hi : includes (insert_sorted id (installedComponents cfg)) id = true).
  { apply includes_In. apply (Permutation_in id (Permutation_sym (insert_sorted_perm _ _))).
    now left. }
  rewrite Hi. simpl. rewrite (remove_first_insert_sorted _ _ Hin).
  now destruct cfg.
Qed.

Lemma add_remove_roundtrip_witness :
  manifestFile (snd ((addInstalledComponent "button" ;; removeInstalledComponent "button")
     (mkProject (fun _ => None) (Parsed (with_installed DEFAULT_CONFIG ["alert"; "card"])) [] [])))
  = Parsed (with_installed DEFAULT_CONFIG ["alert"; "card"]).
Proof.
  apply add_remove_roundtrip.
  - reflexivity.
  - repeat constructor.
  - simpl. intros [H|[H|[]]]; discriminate.
Defined.

(** X7: [removeInstalledComponent] drops exactly one occurrence of the id, and is a no-op when the id is absent. *)
Theorem removeInstalledComponent_one_occurrence id p cfg :
  manifestFile p = Parsed cfg ->
  let (r, p') := removeInstalledComponent id p in
  r = Ok tt /\ componentFiles p' = componentFiles p /\ console p' = console p /\
  (~ In id (installedComponents cfg) -> p' = p) /\
  (In id (installedComponents cfg) ->
   exists l, manifestFile p' = Parsed (with_installed cfg l) /\
     forall y, count_occ string_dec l y
               = if String.eqb y id then count_occ string_dec (installedComponents cfg) y - 1
                 else count_occ string_dec (installedComponents cfg) y).
Proof.
  intros Hm. unfold removeInstalledComponent, bind. rewrite (readConfig_parsed _ _ Hm).
  destruct (includes (installedComponents cfg) id) eqn:Hi.
  - apply includes_In in Hi. simpl. repeat split.
    + intros Hn. contradiction.
    + intros _. eexists. split; [reflexivity|]. intros y. now apply count_remove_first.
  - simpl. repeat split.
    intros Hin. apply includes_In in Hin. congruence.
Qed.

Lemma removeInstalledComponent_one_occurrence_witness :
  let p := mkProject (fun _ => None) (Parsed (with_installed DEFAULT_CONFIG ["button"; "card"; "button"])) [] [] in
  let (r, p') := removeInstalledComponent "button" p in
  r = Ok tt /\ componentFiles p' = componentFiles p /\ console p' = console p /\
  (~ In "button" ["button"; "card"; "button"] -> p' = p) /\
  (In "button" ["button"; "card"; "button"] ->
   exists l, manifestFile p' = Parsed (with_installed (with_installed DEFAULT_CONFIG ["button"; "card"; "button"]) l) /\
     forall y, count_occ string_dec l y
               = if String.eqb y "button" then count_occ string_dec ["button"; "card"; "button"] y - 1
                 else count_occ string_dec ["button"; "card"; "button"] y).
Proof.
  intros p. exact (removeInstalledComponent_one_occurrence "button" p _ eq_refl).
Defined.

(** X8: [isComponentInstalled] is true after [addInstalledComponent] and, on a duplicate-free list, false after [removeInstalledComponent]. *)
Theorem isComponentInstalled_add_remove id p cfg :
  manifestFile p = Parsed cfg ->
  fst ((addInstalledComponent id ;; isComponentInstalled id) p) = Ok true /\
  (NoDup (installedComponents cfg) ->
   fst ((removeInstalledComponent id ;; isComponentInstalled id) p) = Ok false).
Proof.
  intros Hm. split.
  - unfold addInstalledComponent, bind at 1. unfold bind at 1. rewrite (readConfig_parsed _ _ Hm).
    destruct (includes (installedComponents cfg) id) eqn:Hi; simpl.
    + unfold isComponentInstalled, bind, readConfig. rewrite Hm. simpl. exact (f_equal Ok Hi).
    + unfold isComponentInstalled, bind, readConfig. simpl. f_equal. apply includes_In.
      apply (Permutation_in id (Permutation_sym (sort_perm _))). apply in_or_app. right. now left.
  - intros Hnd. unfold removeInstalledComponent, bind at 1. unfold bind at 1.
    rewrite (readConfig_parsed _ _ Hm).
    destruct (includes (installedComponents cfg) id) eqn:Hi; simpl.
    + unfold isComponentInstalled, bind, readConfig. simpl. f_equal.
      apply includes_false. now apply remove_first_notin.
    + unfold isComponentInstalled, bind, readConfig. rewrite Hm. simpl. exact (f_equal Ok Hi).
Qed.

Lemma isComponentInstalled_add_remove_witness :
  let p := mkProject (fun _ => None) (Parsed (with_installed DEFAULT_CONFIG ["card"])) [] [] in
  fst ((addInstalledComponent "button" ;; isComponentInstalled "button") p) = Ok true /\
  (NoDup ["card"] ->
   fst ((removeInstalledComponent "button" ;; isComponentInstalled "button") p) = Ok false).
Proof.
  intros p. exact (isComponentInstalled_add_remove "button" p (with_installed DEFAULT_CONFIG ["card"]) eq_refl).
Defined.







Lemma split_char_app sep w rest :
  ~ has_char sep w -> split_char sep (w ++ String sep rest) = w :: split_char sep rest.
Proof.
  induction w as [|c w IH]; intros Hw; simpl.
  - now rewrite Ascii.eqb_refl.
  - destruct (Ascii.eqb_spec c sep) as [->|Hc]; [exfalso; apply Hw; now left|].
    rewrite IH; [reflexivity|]. intros H. apply Hw. now right.
Qed.

Lemma split_char_single sep w : ~ has_char sep w -> split_char sep w = [w].
Proof.
  induction w as [|c w IH]; intros Hw; simpl; [reflexivity|].
  destruct (Ascii.eqb_spec c sep) as [->|Hc]; [exfalso; apply Hw; now left|].
  rewrite IH; [reflexivity|]. intros H. apply Hw. now right.
Qed.

Lemma split_concat sep parts :
  parts <> [] -> (forall w, In w parts -> ~ has_char sep w) ->
  split_char sep (String.concat (String sep EmptyString) parts) = parts.
Proof.
  induction parts as [|w parts IH]; intros Hne Hw; [congruence|].
  destruct parts as [|w' parts].
  - simpl. apply split_char_single, Hw. now left.
  - change (String.concat (String sep EmptyString) (w :: w' :: parts))
      with (w ++ String sep EmptyString ++ String.concat (String sep EmptyString) (w' :: parts))%string.
    simpl (String sep EmptyString ++ _)%string.
    rewrite split_char_app by (apply Hw; now left).
    f_equal. apply IH; [discriminate|]. intros x Hx. apply Hw. now right.
Qed.

Lemma str_app_assoc a b c : ((a ++ b) ++ c)%string = (a ++ (b ++ c))%string.
Proof. induction a as [|x a IH]; simpl; congruence. Qed.

Lemma strip_prefix_app pre s r : strip_prefix pre s = Some r -> s = (pre ++ r)%string.
Proof.
  revert s. induction pre as [|a pre IH]; intros [|b s] H; simpl in *; try discriminate.
  - congruence.
  - congruence.
  - destruct (Ascii.eqb_spec a b) as [->|]; [|discriminate]. f_equal. now apply IH.
Qed.

Lemma strip_prefix_self pre r : strip_prefix pre (pre ++ r) = Some r.
Proof.
  induction pre as [|a pre IH]; simpl; [now destruct r|]. now rewrite Ascii.eqb_refl.
Qed.

Lemma skip_spaces_suffix s : exists a, s = (a ++ skip_spaces s)%string.
Proof.
  induction s as [|c s IH]; simpl; [now exists EmptyString|].
  destruct (is_js_space c).
  - destruct IH as [a Ha]. exists (String c a). simpl. now f_equal.
  - now exists EmptyString.
Qed.

Lemma match_quote_suffix s r : match_quote s = Some r -> exists c, s = String c r.
Proof.
  destruct s as [|c s]; simpl; [discriminate|].
  destruct (is_quote c); [|discriminate]. intros [= <-]. now exists c.
Qed.

Lemma str_includes_app needle a b :
  str_includes needle (a ++ needle ++ b)%string = true.
Proof.
  induction a as [|c a IH]; simpl.
  - destruct needle as [|n needle]; simpl; [destruct b; reflexivity|].
    rewrite Ascii.eqb_refl, strip_prefix_self. reflexivity.
  - destruct (strip_prefix needle (String c (a ++ needle ++ b))); [reflexivity|]. exact IH.
Qed.

Lemma match_utils_import_includes s r :
  match_utils_import s = Some r -> str_includes "../../lib/utils" s = true.
Proof.
  unfold match_utils_import. destruct (strip_prefix "from" s) as [[|ch r1]|] eqn:E1;
    try discriminate.
  destruct (is_js_space ch); [|discriminate].
  destruct (match_quote (skip_spaces r1)) as [r2|] eqn:E2; [|discriminate].
  destruct (strip_prefix "../../lib/utils" r2) as [r3|] eqn:E3; [|discriminate].
  intros _. apply strip_prefix_app in E1, E3. apply match_quote_suffix in E2.
  destruct E2 as [q E2]. destruct (skip_spaces_suffix r1) as [a Ha].
  rewrite E1, Ha, E2, E3.
  replace ("from" ++ String ch (a ++ String q ("../../lib/utils" ++ r3)))%string
    with (("from" ++ String ch (a ++ String q EmptyString)) ++ "../../lib/utils" ++ r3)%string.
  - apply str_includes_app.
  - repeat rewrite str_app_assoc. simpl. repeat rewrite str_app_assoc. reflexivity.
Qed.

Lemma str_includes_tail needle c s :
  str_includes needle (String c s) = false -> str_includes needle s = false.
Proof.
  simpl. destruct (strip_prefix needle (String c s)); [discriminate|]. exact (fun H => H).
Qed.

Lemma replace_go_no_match fuel repl s :
  str_includes "../../lib/utils" s = false -> replace_go fuel repl s = s.
Proof.
  revert s. induction fuel as [|fuel IH]; intros s Hs; simpl; [reflexivity|].
  destruct (match_utils_import s) as [r|] eqn:Em.
  { apply match_utils_import_includes in Em. congruence. }
  destruct s as [|c s]; [reflexivity|].
  f_equal. apply IH. exact (str_includes_tail _ _ _ Hs).
Qed.

Lemma rev_string_app x y : rev_string (x ++ y) = (rev_string y ++ rev_string x)%string.
Proof.
  induction x as [|c x IH]; simpl.
  - induction (rev_string y) as [|d r IHr]; simpl; congruence.
  - rewrite IH. apply str_app_assoc.
Qed.

Lemma rev_string_involutive s : rev_string (rev_string s) = s.
Proof.
  induction s as [|c s IH]; simpl; [reflexivity|].
  rewrite rev_string_app, IH. reflexivity.
Qed.

Lemma blank_app a b : blank (a ++ b) = blank a && blank b.
Proof.
  induction a as [|c a IH]; simpl; [reflexivity|].
  unfold blank in *. simpl. rewrite IH. apply andb_assoc.
Qed.

Lemma blank_rev a : blank a = true -> blank (rev_string a) = true.
Proof.
  induction a as [|c a IH]; simpl; [reflexivity|].
  unfold blank at 1. simpl. intros H. apply andb_prop in H as [Hc Ha].
  rewrite blank_app, IH by exact Ha. unfold blank. simpl. now rewrite Hc.
Qed.

Lemma skip_blank_app a x : blank a = true -> skip_spaces (a ++ x) = skip_spaces x.
Proof.
  induction a as [|c a IH]; simpl; [reflexivity|].
  unfold blank. simpl. intros H. apply andb_prop in H as [Hc Ha]. rewrite Hc. now apply IH.
Qed.

Lemma skip_empty_app s b : skip_spaces s = EmptyString -> skip_spaces (s ++ b) = skip_spaces b.
Proof.
  induction s as [|c s IH]; simpl; [reflexivity|].
  destruct (is_js_space c); [exact IH|discriminate].
Qed.

Lemma skip_nonempty_app s b c t :
  skip_spaces s = String c t -> skip_spaces (s ++ b) = (String c t ++ b)%string.
Proof.
  induction s as [|d s IH]; simpl; [discriminate|].
  destruct (is_js_space d); [exact IH|]. intros [= -> ->]. reflexivity.
Qed.

Lemma skip_blank s : blank s = true -> skip_spaces s = EmptyString.
Proof.
  induction s as [|c s IH]; simpl; [reflexivity|].
  unfold blank. simpl. intros H. apply andb_prop in H as [Hc Hs]. rewrite Hc. now apply IH.
Qed.

Lemma trim_blank_ends a s b :
  blank a = true -> blank b = true -> trim (a ++ s ++ b) = trim s.
Proof.
  intros Ha Hb. unfold trim, trim_start. rewrite skip_blank_app by exact Ha.
  destruct (skip_spaces s) as [|c t] eqn:Hs.
  - rewrite skip_empty_app by exact Hs. rewrite (skip_blank b Hb). reflexivity.
  - rewrite (skip_nonempty_app _ _ _ _ Hs), rev_string_app.
    rewrite skip_blank_app by (now apply blank_rev). reflexivity.
Qed.

(** X9: [transformContent] leaves content without ../../lib/utils unchanged. *)
Theorem transformContent_no_occurrence utilsImportPath content :
  str_includes "../../lib/utils" content = false ->
  transformContent utilsImportPath content = content.
Proof. intros H. unfold transformContent. now apply replace_go_no_match. Qed.

Lemma transformContent_no_occurrence_witness :
  transformContent "@/lib/utils" ("import { cn } from " ++ dq ++ "@/lib/utils" ++ dq ++ ";")%string
  = ("import { cn } from " ++ dq ++ "@/lib/utils" ++ dq ++ ";")%string.
Proof. apply transformContent_no_occurrence. vm_compute. reflexivity. Defined.

(** X11: a local file equal to the transformed template up to leading and trailing whitespace is up to date for both [diff] and [update]. *)
Theorem up_to_date_modulo_blank_ends templates projectType diffLines cfg nm d f0 rest src a b p :
  find_own nm registry = Some d -> files d = f0 :: rest -> templates f0 = Some src ->
  blank a = true -> blank b = true ->
  componentFiles p f0
  = Some (a ++ transformContent (utilsImportPathOf projectType cfg) src ++ b)%string ->
  diff_entry templates projectType diffLines cfg nm p
  = (Ok false, with_console p (console p ++ [MStatusUpToDate (name d)])) /\
  update_entry templates projectType cfg nm p = (Ok (Some (nm, false)), p).
Proof.
  intros Hf Hfiles Ht Ha Hb Hp.
  assert (Hg : get registry nm = Own d) by (unfold get; now rewrite Hf).
  split.
  - unfold diff_entry. rewrite Hg, Hfiles. unfold bind at 1, fileExists. rewrite Hp. cbn [negb].
    unfold try_catch, bind, readLocal, readTemplate. rewrite Hp, Ht.
    rewrite trim_blank_ends by assumption. rewrite String.eqb_refl. reflexivity.
  - unfold update_entry. rewrite (registry_keys_lowercase _ _ Hf), Hg, Hfiles.
    unfold bind at 1, fileExists. rewrite Hp. cbn [negb].
    unfold try_catch, bind, readLocal, readTemplate. rewrite Hp, Ht.
    rewrite trim_blank_ends by assumption. rewrite String.eqb_refl. reflexivity.
Qed.

Lemma up_to_date_modulo_blank_ends_witness :
  let src := ("import { cn } from " ++ dq ++ "../../lib/utils" ++ dq ++ ";")%string in
  let nl := String (ascii_of_nat 10) EmptyString in
  let p := mkProject (fun f => if String.eqb f "Button.tsx"
             then Some (nl ++ transformContent (utilsImportPathOf "nextjs" DEFAULT_CONFIG) src ++ nl ++ nl)%string
             else None) (Parsed DEFAULT_CONFIG) [] [] in
  update_entry (fun f => if String.eqb f "Button.tsx" then Some src else None) "nextjs"
               DEFAULT_CONFIG "button" p = (Ok (Some ("button", false)), p).
Proof.
  intros src nl p.
  pose (d := match find_own "button" registry with
             | Some d => d | None => entry "" "" [] [] [] end).
  exact (proj2 (up_to_date_modulo_blank_ends
    (fun f => if String.eqb f "Button.tsx" then Some src else None) "nextjs" (fun _ _ => [])
    DEFAULT_CONFIG "button" d "Button.tsx" [] src nl (nl ++ nl)%string p
    ltac:(vm_compute; reflexivity) ltac:(vm_compute; reflexivity) eq_refl
    ltac:(vm_compute; reflexivity) ltac:(vm_compute; reflexivity) eq_refl)).
Defined.

(* ------------------------------------------------------------------ *)
(** ** The [add] command: frames, the copy phase and its outcomes *)


Lemma keeps_ret f {A} (a : A) : keeps f (ret a).
Proof. intros p. reflexivity. Qed.

Lemma keeps_log f m : keeps f (log m).
Proof. intros p. reflexivity. Qed.

Lemma keeps_throw f {A} : keeps f (@throw A).
Proof. intros p. reflexivity. Qed.

Lemma keeps_exit f {A} n : keeps f (@exit A n).
Proof. intros p. reflexivity. Qed.

Lemma keeps_bind f {A B} (m : M A) (k : A -> M B) :
  keeps f m -> (forall a, keeps f (k a)) -> keeps f (bind m k).
Proof.
  intros Hm Hk p. unfold bind. specialize (Hm p).
  destruct (m p) as [[a| |] p'] eqn:E; simpl in *; [rewrite Hk|..]; exact Hm.
Qed.

Lemma keeps_try_catch f {A} (m h : M A) :
  keeps f m -> keeps f h -> keeps f (try_catch m h).
Proof.
  intros Hm Hh p. unfold try_catch. specialize (Hm p).
  destruct (m p) as [[a| |] p'] eqn:E; simpl in *; [exact Hm|exact Hm|]. rewrite Hh. exact Hm.
Qed.

Lemma keeps_for_each f {A} (l : list A) body :
  (forall x, In x l -> keeps f (body x)) -> keeps f (for_each l body).
Proof.
  induction l as [|x l IH]; intros H; simpl; [apply keeps_ret|].
  apply keeps_bind; [apply H; now left|]. intros _. apply IH. intros y Hy. apply H. now right.
Qed.

Lemma keeps_writeConfig f cfg : keeps f (writeConfig cfg).
Proof. intros p. reflexivity. Qed.

Lemma keeps_readConfig f : keeps f readConfig.
Proof. intros p. reflexivity. Qed.

Lemma keeps_configExists f : keeps f configExists.
Proof. intros p. reflexivity. Qed.

Lemma keeps_addInstalledComponent f n : keeps f (addInstalledComponent n).
Proof.
  unfold addInstalledComponent. apply keeps_bind; [apply keeps_readConfig|].
  intros [cfg|]; [|apply keeps_ret].
  destruct (negb _); [apply keeps_writeConfig|apply keeps_ret].
Qed.

Lemma keeps_copy_file templates writable projectType f cfg nm file :
  file <> f -> keeps f (copy_file templates writable projectType cfg nm file).
Proof.
  intros Hne. unfold copy_file. apply keeps_try_catch.
  - apply keeps_bind; [intros p; unfold readTemplate; now destruct (templates file)|].
    intros c. apply keeps_bind; [|intros _; apply keeps_addInstalledComponent].
    intros p. unfold writeFile. destruct (writable file); [|reflexivity].
    simpl. destruct (String.eqb_spec f file); [congruence|reflexivity].
  - apply keeps_bind; [apply keeps_log|]. intros _. apply keeps_exit.
Qed.

Lemma keeps_copy_components templates writable projectType f cfg names :
  (forall n d, In n names -> get registry n = Own d -> ~ In f (files d)) ->
  keeps f (copy_components templates writable projectType registry cfg names).
Proof.
  intros H. unfold copy_components. apply keeps_for_each. intros n Hn.
  destruct (get registry n) as [d| |] eqn:Hg; [|apply keeps_throw|apply keeps_ret].
  apply keeps_for_each. intros file Hfile. apply keeps_copy_file.
  intros ->. exact (H n d Hn Hg Hfile).
Qed.

(** Running a loop with an invariant indexed by the processed prefix. *)
Lemma for_each_accum {A} (P : list A -> Project -> Prop) (body : A -> M unit) l :
  (forall done x p, In x l -> P done p -> exists p', body x p = (Ok tt, p') /\ P (done ++ [x]) p') ->
  forall done p, P done p -> exists p', for_each l body p = (Ok tt, p') /\ P (done ++ l) p'.
Proof.
  induction l as [|x l IH]; intros Hstep done p HP; simpl.
  - exists p. now rewrite app_nil_r.
  - destruct (Hstep done x p (or_introl eq_refl) HP) as (p1 & E1 & HP1).
    destruct (IH (fun d y q Hy => Hstep d y q (or_intror Hy)) _ _ HP1) as (p2 & E2 & HP2).
    exists p2. split.
    + unfold bind. rewrite E1. exact E2.
    + rewrite <- app_assoc in HP2. exact HP2.
Qed.

Lemma for_each_log {A} (l : list A) (g : A -> Msg) p :
  for_each l (fun x => log (g x)) p = (Ok tt, with_console p (console p ++ map g l)).
Proof.
  revert p. induction l as [|x l IH]; intros p; simpl.
  - rewrite app_nil_r. now destruct p.
  - unfold bind. simpl. rewrite IH. simpl. now rewrite <- app_assoc.
Qed.

Lemma resolve_loop_unknown reg l : forall fuel ws,
  length l <= fuel ->
  (forall x, In x l -> get reg (toLowerCase x) = Undefined) ->
  resolve_loop reg fuel [] ws l =
    Some (Ok ([], ws ++ map (fun x => ("Unknown component: " ++ x)%string) (rev l))).
Proof.
  induction l as [|x l IH] using rev_ind; intros fuel ws Hf Hu.
  - destruct fuel; simpl; now rewrite app_nil_r.
  - assert (Hp : pop (l ++ [x]) = Some (x, l))
      by (unfold pop; rewrite rev_app_distr; simpl; now rewrite rev_involutive).
    rewrite length_app in Hf. simpl in Hf.
    destruct fuel as [|fuel]; [lia|]. simpl. rewrite Hp.
    rewrite (Hu x) by (apply in_or_app; right; now left).
    rewrite IH by (lia || (intros y Hy; apply Hu, in_or_app; now left)).
    rewrite rev_app_distr. simpl. now rewrite <- app_assoc.
Qed.


Lemma registry_files_disjoint n n' d d' f :
  get registry n = Own d -> get registry n' = Own d' -> n <> n' ->
  In f (files d) -> ~ In f (files d').
Proof.
  intros H H' Hne Hf Hf'.
  apply get_own_find in H. apply get_own_find in H'.
  assert (Hall : forallb (fun k1 => forallb (fun k2 =>
            String.eqb k1 k2 ||
            match find_own k1 registry, find_own k2 registry with
            | Some d1, Some d2 => forallb (fun g => negb (includes (files d2) g)) (files d1)
            | _, _ => true
            end) (map fst registry)) (map fst registry) = true)
    by (vm_compute; reflexivity).
  rewrite forallb_forall in Hall.
  specialize (Hall n (in_map fst _ _ (find_own_In _ _ _ H))).
  rewrite forallb_forall in Hall.
  specialize (Hall n' (in_map fst _ _ (find_own_In _ _ _ H'))).
  rewrite H, H' in Hall. apply String.eqb_neq in Hne. rewrite Hne in Hall. simpl in Hall.
  rewrite forallb_forall in Hall. specialize (Hall f Hf).
  apply includes_In in Hf'. rewrite Hf' in Hall. discriminate.
Qed.


Lemma preserves_keeps fs p0 {A} (m : M A) :
  (forall f, In f fs -> keeps f m) -> preserves (same_files fs p0) m.
Proof. intros H p Hp f Hf. rewrite (H f Hf). exact (Hp f Hf). Qed.

Lemma preserves_bind I {A B} (m : M A) (k : A -> M B) :
  preserves I m ->
  (forall a p p', m p = (Ok a, p') -> I p' -> I (snd (k a p'))) ->
  preserves I (bind m k).
Proof.
  intros Hm Hk p Hp. unfold bind. pose proof (Hm p Hp) as Hp'.
  destruct (m p) as [[a| |] p'] eqn:E; simpl in *; [exact (Hk a p p' E Hp')|exact Hp'|exact Hp'].
Qed.

Lemma split_existing_spec l p r p' :
  split_existing l p = (r, p') ->
  p' = p /\
  forall e nw, r = Ok (e, nw) -> forall x, In x nw -> installed_on_disk p x = false /\
    exists d, get registry x = Own d.
Proof.
  revert r p'. induction l as [|n l IH]; intros r p' E; simpl in E.
  - injection E as <- <-. split; [reflexivity|]. intros e nw [= <- <-] x [].
  - destruct (get registry n) as [d| |] eqn:Hg.
    + destruct (files d) as [|f0 fs] eqn:Hf; [injection E as <- <-; split; [reflexivity|]; discriminate|].
      unfold bind, fileExists, ret in E. simpl in E.
      remember (split_existing l p) as s1 eqn:E1. destruct s1 as [r1 p1].
      destruct (IH r1 p1 eq_refl) as [-> IH1].
      destruct r1 as [[e1 nw1]| |]; injection E as <- <-; (split; [reflexivity|]); try discriminate.
      intros e nw Heq x Hx.
      destruct (componentFiles p f0) eqn:Hc; injection Heq as <- <-; simpl in Hx.
      * exact (IH1 _ _ eq_refl x Hx).
      * destruct Hx as [<-|Hx]; [|exact (IH1 _ _ eq_refl x Hx)].
        split; [|now exists d]. unfold installed_on_disk. now rewrite Hg, Hf, Hc.
    + injection E as <- <-. split; [reflexivity|discriminate].
    + exact (IH _ _ E).
Qed.

Lemma preserves_bind' I {A B} (m : M A) (k : A -> M B) :
  preserves I m -> (forall a, preserves I (k a)) -> preserves I (bind m k).
Proof. intros Hm Hk. apply preserves_bind; [exact Hm|]. intros a p p' _ Hp'. exact (Hk a p' Hp'). Qed.

Lemma preserves_at I {A} (m : M A) p : preserves I m -> I p -> I (snd (m p)).
Proof. intros H. exact (H p). Qed.

Ltac keeps_leaf :=
  cbv beta iota; apply preserves_keeps; intros ? ?;
  first [ apply keeps_log | apply keeps_exit | apply keeps_ret | apply keeps_throw
        | apply keeps_configExists | apply keeps_readConfig
        | apply keeps_bind; [apply keeps_log|intros ?; apply keeps_exit]
        | apply keeps_for_each; intros ? ?; apply keeps_log ].

(** X13: without --overwrite, and with --yes or a declined prompt, [add] leaves the files of an already-present component unchanged. *)
Theorem add_keeps_existing_without_overwrite templates writable projectType npmInstallOk
    components yes all selection overwriteAnswer p n d f :
  (yes = true \/ overwriteAnswer = false) ->
  get registry n = Own d -> installed_on_disk p n = true -> In f (files d) ->
  componentFiles (snd (add templates writable projectType npmInstallOk components yes all false
                         selection overwriteAnswer p)) f = componentFiles p f.
Proof.
  intros Hyo Hn Hinst Hf.
  enough (H : preserves (same_files (files d) p)
                (add templates writable projectType npmInstallOk components yes all false
                     selection overwriteAnswer))
    by (apply (H p (fun _ _ => eq_refl)); exact Hf).
  unfold add. apply preserves_bind'; [keeps_leaf|]. intros ex.
  destruct (negb ex); [keeps_leaf|].
  apply preserves_bind'; [keeps_leaf|]. intros [cfg|]; [|keeps_leaf].
  cbv zeta.
  destruct (if is_empty _ then _ else _) as [comps|]; [|keeps_leaf].
  destruct (resolveComponentDependencies registry comps) as [[[rc ws]| |]|]; try keeps_leaf.
  apply preserves_bind'; [keeps_leaf|]. intros _.
  apply preserves_bind; [intros q Hq; destruct (split_existing rc q) as [r0 q0] eqn:E0;
                               destruct (split_existing_spec _ _ _ _ E0) as [-> _]; exact Hq|].
  intros [e nw] q q' Es Hq'.
  destruct (split_existing_spec _ _ _ _ Es) as [-> Hnw].
  specialize (Hnw e nw eq_refl).
  assert (Hneq : forall x, In x nw -> x <> n).
  { intros x Hx ->. destruct (Hnw n Hx) as [Hoff _].
    unfold installed_on_disk in Hinst, Hoff. rewrite Hn in Hinst, Hoff.
    destruct (files d) as [|f0 fs]; [discriminate|].
    rewrite (Hq' f0 (or_introl eq_refl)) in Hoff. rewrite Hoff in Hinst. discriminate. }
  revert Hq'. apply preserves_at. cbn [fst snd].
  apply preserves_bind.
  { destruct (negb (is_empty e) && negb false);
      [apply preserves_bind'; [keeps_leaf|]; intros _;
       destruct yes, overwriteAnswer, (is_empty nw)|];
      try keeps_leaf; apply preserves_bind'; keeps_leaf. }
  intros ow r r' Eow Hr'. revert Hr'. apply preserves_at.
  assert (Hnt : ow <> Some true).
  { destruct (negb (is_empty e) && negb false);
      [destruct Hyo as [->| ->]; [|destruct yes]; [|destruct (is_empty nw)|destruct (is_empty nw)]|];
      unfold bind, log, ret in Eow; simpl in Eow; injection Eow; intros; subst; discriminate. }
  destruct ow as [[|]|]; [contradiction| |keeps_leaf].
  cbv iota.
  destruct (is_empty nw); [keeps_leaf|].
  apply preserves_bind'; [keeps_leaf|]. intros _.
  apply preserves_bind'; [keeps_leaf|]. intros _.
  destruct (getNpmDependencies registry nw) as [deps| |]; try keeps_leaf.
  apply preserves_bind'.
  { destruct (is_empty deps); [keeps_leaf|]. destruct npmInstallOk; keeps_leaf. }
  intros _. apply preserves_bind'.
  - apply preserves_keeps. intros g Hg. apply keeps_copy_components.
    intros n' d' Hn' Hd'. apply (registry_files_disjoint n n' d d' g Hn Hd'); [|exact Hg].
    intros Heq. exact (Hneq n' Hn' (eq_sym Heq)).
  - intros _. apply preserves_bind'; [keeps_leaf|]. intros _.
    apply preserves_bind'; [keeps_leaf|intros _; keeps_leaf].
Qed.



Lemma manifest_members_iff cfg S S' q :
  (forall x, S x <-> S' x) -> manifest_members cfg S q -> manifest_members cfg S' q.
Proof. intros H (l & Hm & Hl). exists l. split; [exact Hm|]. intros x. rewrite Hl. apply H. Qed.

Lemma addInstalledComponent_members cfg S n q :
  manifest_members cfg S q ->
  exists q', addInstalledComponent n q = (Ok tt, q') /\
    componentFiles q' = componentFiles q /\ console q' = console q /\
    manifest_members cfg (fun x => S x \/ x = n) q'.
Proof.
  intros (l & Hm & Hl). unfold addInstalledComponent, bind.
  rewrite (readConfig_parsed _ _ Hm). cbv beta iota. cbn [installedComponents with_installed].
  destruct (includes l n) eqn:E; simpl.
  - eexists. split; [reflexivity|]. repeat split; [].
    exists l. split; [exact Hm|]. intros x. rewrite <- Hl. apply includes_In in E.
    split; [now left|]. intros [H| ->]; assumption.
  - eexists. split; [reflexivity|]. repeat split; [].
    exists (sort (l ++ [n])). split; [reflexivity|]. intros x.
    split.
    + intros Hx. apply (Permutation_in _ (sort_perm _)), in_app_or in Hx.
      destruct Hx as [Hx|[<-|[]]]; [left; now apply Hl|now right].
    + intros Hx. apply (Permutation_in _ (Permutation_sym (sort_perm _))), in_or_app.
      destruct Hx as [Hx| ->]; [left; now apply Hl|right; now left].
Qed.

Section CopyPhase.

Variable templates : string -> option string.
Variable writable : string -> bool.
Variable projectType : string.
Variable cfg : DiamantConfig.


Lemma copy_file_ok S nm file q :
  templates file <> None -> writable file = true -> manifest_members cfg S q ->
  exists q', copy_file templates writable projectType cfg nm file q = (Ok tt, q') /\
    (forall f, componentFiles q' f = if String.eqb f file then expected templates projectType cfg f else componentFiles q f) /\
    console q' = console q /\ manifest_members cfg (fun x => S x \/ x = nm) q'.
Proof.
  intros Ht Hw Hm. unfold copy_file, try_catch, bind, readTemplate, writeFile, expected.
  destruct (templates file) as [s|] eqn:Hs; [|congruence]. rewrite Hw.
  assert (Hm' : manifest_members cfg S (set_file q file (Some (transformContent (utilsImportPathOf projectType cfg) s))))
    by exact Hm.
  destruct (addInstalledComponent_members _ _ nm _ Hm') as (q' & E & Hf & Hc & Hm2).
  rewrite E. exists q'. repeat split; [|exact Hc|exact Hm2].
  intros f. rewrite Hf. simpl. destruct (String.eqb_spec f file) as [->|_]; [now rewrite Hs|reflexivity].
Qed.

Lemma owned_by_snoc done n d f :
  get registry n = Own d -> owned_by (done ++ [n]) f = owned_by done f || includes (files d) f.
Proof. intros H. unfold owned_by. rewrite existsb_app. simpl. now rewrite H, orb_false_r. Qed.

Lemma copy_components_ok S names q0 :
  (forall n, In n names -> exists d, get registry n = Own d /\
     forall f, In f (files d) -> templates f <> None /\ writable f = true) ->
  manifest_members cfg S q0 ->
  exists q', copy_components templates writable projectType registry cfg names q0 = (Ok tt, q') /\
    (forall f, componentFiles q' f = if owned_by names f then expected templates projectType cfg f else componentFiles q0 f) /\
    console q' = console q0 /\ manifest_members cfg (fun x => S x \/ In x names) q'.
Proof.
  intros Hok Hm0.
  set (P := fun done q =>
    (forall f, componentFiles q f = if owned_by done f then expected templates projectType cfg f else componentFiles q0 f) /\
    console q = console q0 /\ manifest_members cfg (fun x => S x \/ In x done) q).
  assert (HP0 : P [] q0).
  { split; [reflexivity|]. split; [reflexivity|].
    apply (manifest_members_iff _ S); [|exact Hm0]. intros x. simpl. tauto. }
  enough (Hstep : forall done n q, In n names -> P done q ->
     exists q', (match get registry n with
                 | Undefined => ret tt
                 | Inherited => throw
                 | Own componentDef => for_each (files componentDef) (copy_file templates writable projectType cfg n)
                 end) q = (Ok tt, q') /\ P (done ++ [n]) q').
  { destruct (for_each_accum P _ names Hstep [] q0 HP0) as (q' & E & HP).
    exists q'. split; [exact E|]. exact HP. }
  intros done n q Hn (Hf & Hc & Hm).
  destruct (Hok n Hn) as (d & Hd & Hfiles). rewrite Hd.
  set (Q := fun doneF q' =>
    (forall f, componentFiles q' f =
       if owned_by done f || includes doneF f then expected templates projectType cfg f else componentFiles q0 f) /\
    console q' = console q0 /\
    manifest_members cfg (fun x => S x \/ In x done \/ (x = n /\ doneF <> [])) q').
  assert (HQ0 : Q [] q).
  { split; [intros f; rewrite Hf; now rewrite orb_false_r|]. split; [exact Hc|].
    apply (manifest_members_iff _ (fun x => S x \/ In x done)); [|exact Hm].
    intros x. split; [tauto|]. intros [H|[H|[_ H]]]; [tauto|tauto|congruence]. }
  assert (HstepQ : forall doneF file q1, In file (files d) -> Q doneF q1 ->
     exists q2, copy_file templates writable projectType cfg n file q1 = (Ok tt, q2) /\
                Q (doneF ++ [file]) q2).
  { intros doneF file q1 Hfile (Hf1 & Hc1 & Hm1).
    destruct (Hfiles file Hfile) as [Ht Hw].
    destruct (copy_file_ok _ n file q1 Ht Hw Hm1) as (q2 & E2 & Hf2 & Hc2 & Hm2).
    exists q2. split; [exact E2|]. split; [|split].
    + intros f. rewrite Hf2, Hf1. unfold includes. rewrite existsb_app. simpl.
      destruct (String.eqb_spec f file) as [->|Hne].
      * now rewrite !orb_true_r.
      * now rewrite !orb_false_r.
    + congruence.
    + apply (manifest_members_iff _ _ _ _ (fun x => iff_refl _)) in Hm2.
      eapply manifest_members_iff; [|exact Hm2]. intros x. split.
      * intros [[H|[H|[H _]]]| ->]; [tauto|tauto|right; right; split; [exact H|]|right; right; split; [reflexivity|]];
          destruct doneF; discriminate.
      * intros [H|[H|[-> _]]]; [tauto|tauto|now right]. }
  destruct (for_each_accum Q _ (files d) HstepQ [] q HQ0) as (q' & E & (Hf' & Hc' & Hm')).
  - exists q'. split; [exact E|]. split; [|split; [exact Hc'|]].
    + intros f. rewrite Hf'. simpl. now rewrite (owned_by_snoc done n d f Hd).
    + eapply manifest_members_iff; [|exact Hm']. intros x. rewrite in_app_iff. simpl.
      pose proof (registry_files_nonempty _ _ Hd) as Hne. split.
      * intros [H|[H|[-> _]]]; tauto.
      * intros [H|[H|[<-|[]]]]; [tauto|tauto|]. right. right. split; [reflexivity|exact Hne].
Qed.

End CopyPhase.

Lemma is_empty_false {A} (l : list A) : l <> [] -> is_empty l = false.
Proof. destruct l; [congruence|reflexivity]. Qed.

Lemma log_run m q : log m q = (Ok tt, with_console q (console q ++ [m])).
Proof. reflexivity. Qed.

Lemma split_existing_pure l p :
  (forall x, In x l -> exists d, get registry x = Own d) ->
  split_existing l p =
    (Ok (filter (installed_on_disk p) l, filter (fun x => negb (installed_on_disk p x)) l), p).
Proof.
  induction l as [|n l IH]; intros H; simpl; [reflexivity|].
  destruct (H n (or_introl eq_refl)) as [d Hd]. rewrite Hd.
  pose proof (registry_files_nonempty _ _ Hd) as Hne.
  destruct (files d) as [|f0 fs] eqn:Hf; [congruence|].
  unfold bind at 1, fileExists. unfold bind.
  rewrite IH by (intros x Hx; apply H; now right). unfold ret. simpl.
  assert (Hi : installed_on_disk p n = match componentFiles p f0 with Some _ => true | None => false end)
    by (unfold installed_on_disk; now rewrite Hd, Hf).
  rewrite Hi. destruct (componentFiles p f0); reflexivity.
Qed.

Lemma add_keeps_existing_without_overwrite_witness :
  let p := mkProject (fun f => if String.eqb f "Button.tsx" then Some "old" else None)
                     (Parsed DEFAULT_CONFIG) [] [] in
  componentFiles (snd (add (fun _ => Some "new") (fun _ => true) "next" true ["Carousel"]
                         true false false [] false p)) "Button.tsx" = Some "old".
Proof.
  intros p.
  pose (d := match find_own "button" registry with
             | Some d => d | None => entry "" "" [] [] [] end).
  exact (add_keeps_existing_without_overwrite (fun _ => Some "new") (fun _ => true) "next" true
           ["Carousel"] true false [] false p "button" d "Button.tsx"
           (or_introl eq_refl) ltac:(vm_compute; reflexivity) ltac:(vm_compute; reflexivity)
           ltac:(vm_compute; left; reflexivity)).
Defined.

(* ------------------------------------------------------------------ *)
(** ** The copy phase of [add] on a failing file *)

Lemma registry_single_file n d : get registry n = Own d -> exists f, files d = [f].
Proof.
  intros H. apply get_own_find, find_own_In in H.
  assert (Hall : forallb (fun kd => Nat.eqb (length (files (snd kd))) 1) registry = true)
    by (vm_compute; reflexivity).
  rewrite forallb_forall in Hall. apply Hall in H. simpl in H.
  destruct (files d) as [|f [|g l]]; [discriminate| now exists f | discriminate].
Qed.

Lemma for_each_app {A} (l1 l2 : list A) (body : A -> M unit) p :
  for_each (l1 ++ l2) body p = (for_each l1 body ;; for_each l2 body) p.
Proof.
  revert p. induction l1 as [|x l1 IH]; intros p; simpl.
  - reflexivity.
  - specialize (fun p1 => IH p1). unfold bind in *.
    destruct (body x p) as [[[]|n|] p1]; [exact (IH p1)|reflexivity|reflexivity].
Qed.

(** C2: in the copy phase of [add], a component whose file cannot be
    read or written stops the command with exit code 1: the components
    before it are copied and recorded, nothing of the failed component or
    of the ones after it is written, and the manifest does not record the
    failed component. Every component of the shipped registry has one
    file, so the failing file is the component's first and only one:
    there are no earlier files of it, and no later ones to skip. *)
Theorem add_copy_failure_leaves_component_unrecorded templates writable projectType cfg S
    (done : list string) n (rest : list string) d (pre : list string) f (post : list string) p :
  (forall m, In m done -> exists dm, get registry m = Own dm /\
     forall g, In g (files dm) -> templates g <> None /\ writable g = true) ->
  get registry n = Own d -> files d = (pre ++ f :: post)%list ->
  (forall g, In g pre -> templates g <> None /\ writable g = true) ->
  (templates f = None \/ writable f = false) ->
  manifest_members cfg S p ->
  let (r, p') := copy_components templates writable projectType registry cfg
                   (done ++ n :: rest)%list p in
  r = Exit 1 /\
  (forall k : unit -> M unit,
     bind (copy_components templates writable projectType registry cfg (done ++ n :: rest)%list) k p
     = (Exit 1, p')) /\
  pre = [] /\ post = [] /\
  (forall g, componentFiles p' g =
     if owned_by done g then expected templates projectType cfg g else componentFiles p g) /\
  console p' = (console p ++ [MCopyFailed f])%list /\
  manifest_members cfg (fun x => S x \/ In x done) p'.
Proof.
  intros Hdone Hn Hfiles Hpre Hf Hm.
  destruct (registry_single_file n d Hn) as [f0 Hf0].
  rewrite Hf0 in Hfiles.
  destruct pre as [|g pre]; [|destruct pre; discriminate].
  injection Hfiles as <- <-.
  destruct (copy_components_ok templates writable projectType cfg S done p Hdone Hm)
    as (q1 & E1 & Hf1 & Hc1 & Hm1).
  assert (Hfail : for_each [f0] (copy_file templates writable projectType cfg n) q1 =
                  (Exit 1, with_console q1 (console q1 ++ [MCopyFailed f0]))).
  { cbn [for_each]. unfold bind at 1, copy_file, try_catch, bind, readTemplate, writeFile.
    destruct (templates f0) as [s|]; [|reflexivity].
    destruct Hf as [Hf|Hf]; [discriminate|]. rewrite Hf. reflexivity. }
  unfold copy_components. rewrite for_each_app. unfold bind at 1.
  unfold copy_components in E1. rewrite E1.
  cbn [for_each]. unfold bind at 1. rewrite Hn, Hf0, Hfail.
  split; [reflexivity|].
  split; [intros k; unfold bind at 1; rewrite for_each_app; unfold bind at 1; rewrite E1;
          cbn [for_each]; unfold bind at 1; rewrite Hn, Hf0, Hfail; reflexivity|].
  split; [reflexivity|]. split; [reflexivity|].
  split; [exact Hf1|]. split; [cbn; now rewrite Hc1|]. exact Hm1.
Qed.

Lemma add_copy_failure_leaves_component_unrecorded_witness :
  let p := mkProject (fun _ => None) (Parsed DEFAULT_CONFIG) [] [] in
  let (r, p') := copy_components (fun f => Some f) (fun f => negb (String.eqb f "Card.tsx")) "next"
                   registry DEFAULT_CONFIG ((["button"] ++ "card" :: ["badge"])%list) p in
  r = Exit 1 /\
  (forall k : unit -> M unit,
     bind (copy_components (fun f => Some f) (fun f => negb (String.eqb f "Card.tsx")) "next"
             registry DEFAULT_CONFIG ((["button"] ++ "card" :: ["badge"])%list)) k p = (Exit 1, p')) /\
  @nil string = [] /\ @nil string = [] /\
  (forall g, componentFiles p' g =
     if owned_by ["button"] g
     then expected (fun f => Some f) "next" DEFAULT_CONFIG g else componentFiles p g) /\
  console p' = (console p ++ [MCopyFailed "Card.tsx"])%list /\
  manifest_members DEFAULT_CONFIG (fun x => False \/ In x ["button"]) p'.
Proof.
  intros p.
  refine (add_copy_failure_leaves_component_unrecorded (fun f => Some f)
            (fun f => negb (String.eqb f "Card.tsx")) "next" DEFAULT_CONFIG (fun _ => False)
            ["button"] "card" ["badge"] _ [] "Card.tsx" [] p _ _ _ _ _ _).
  - intros m [<-|[]]. eexists. split; [vm_compute; reflexivity|].
    intros g [<-|[]]. split; [discriminate|reflexivity].
  - vm_compute. reflexivity.
  - vm_compute. reflexivity.
  - intros g [].
  - right. reflexivity.
  - exists []. split; [reflexivity|]. intros x. simpl. tauto.
Defined.

(* ------------------------------------------------------------------ *)
(** ** [remove] with installed dependents *)

Lemma NoDup_remove_first x l : NoDup l -> NoDup (remove_first x l).
Proof.
  induction l as [|y l IH]; simpl; [tauto|].
  intros Hnd. inversion Hnd as [|? ? Hy Hnd']; subst.
  destruct (String.eqb_spec y x); [exact Hnd'|].
  constructor; [|exact (IH Hnd')].
  intros H. apply Hy. clear -H. induction l as [|z l IH]; simpl in *; [tauto|].
  destruct (String.eqb_spec z x); [now right|]. destruct H as [->|H]; [now left|right; auto].
Qed.

Lemma In_remove_first x y l : NoDup l -> In y (remove_first x l) <-> In y l /\ y <> x.
Proof.
  intros Hnd. split.
  - intros H. split.
    + clear Hnd. induction l as [|z l IH]; simpl in *; [tauto|].
      destruct (String.eqb_spec z x); [now right|]. destruct H as [->|H]; [now left|right; auto].
    + intros ->. exact (remove_first_notin x l Hnd H).
  - intros [H Hne]. exact (remove_first_keeps x y l H Hne).
Qed.

Lemma delete_files_run fs q :
  exists q', for_each fs deleteFile q = (Ok tt, q') /\
    (forall f, componentFiles q' f = if includes fs f then None else componentFiles q f) /\
    manifestFile q' = manifestFile q /\ console q' = console q.
Proof.
  revert q. induction fs as [|g fs IH]; intros q; simpl.
  - exists q. split; [reflexivity|]. split; [reflexivity|]. split; reflexivity.
  - assert (Hd : exists q1, deleteFile g q = (Ok tt, q1) /\
                   (forall f, componentFiles q1 f = if String.eqb f g then None else componentFiles q f) /\
                   manifestFile q1 = manifestFile q /\ console q1 = console q).
    { unfold deleteFile, bind, fileExists, ret.
      destruct (componentFiles q g) eqn:E.
      - eexists. split; [reflexivity|]. split; [|split; reflexivity].
        intros f. unfold set_file. simpl. reflexivity.
      - eexists. split; [reflexivity|]. split; [|split; reflexivity].
        intros f. destruct (String.eqb_spec f g) as [->|_]; [exact E|reflexivity]. }
    destruct Hd as (q1 & E1 & Hf1 & Hm1 & Hc1).
    destruct (IH q1) as (q2 & E2 & Hf2 & Hm2 & Hc2).
    exists q2. unfold bind. rewrite E1, E2. split; [reflexivity|].
    split; [|split; congruence].
    intros f. rewrite Hf2, Hf1. unfold includes. simpl.
    destruct (String.eqb f g) eqn:E; simpl; [|reflexivity].
    apply String.eqb_eq in E. subst. destruct (existsb _ fs); reflexivity.
Qed.

(** The deletion loop of [remove]: the files of the removed components are
    gone, every other file is kept, and the manifest loses exactly the
    removed ids. *)
Lemma remove_loop_run (l : list string) q0 cfg :
  (forall m, In m l -> exists dm, get registry m = Own dm) ->
  manifestFile q0 = Parsed cfg -> NoDup (installedComponents cfg) ->
  exists q', for_each l remove_one q0 = (Ok tt, q') /\
    (forall f, componentFiles q' f = if owned_by l f then None else componentFiles q0 f) /\
    console q' = console q0 /\
    exists c', manifestFile q' = Parsed c' /\
      forall x, In x (installedComponents c') <-> In x (installedComponents cfg) /\ ~ In x l.
Proof.
  intros Hown Hm Hnd.
  set (P := fun (done : list string) q =>
    (forall f, componentFiles q f = if owned_by done f then None else componentFiles q0 f) /\
    console q = console q0 /\
    exists c', manifestFile q = Parsed c' /\ NoDup (installedComponents c') /\
      forall x, In x (installedComponents c') <-> In x (installedComponents cfg) /\ ~ In x done).
  assert (HP0 : P [] q0).
  { split; [reflexivity|]. split; [reflexivity|]. exists cfg. split; [exact Hm|].
    split; [exact Hnd|]. intros x. simpl. tauto. }
  enough (Hstep : forall done m q, In m l -> P done q ->
            exists q', remove_one m q = (Ok tt, q') /\ P (done ++ [m])%list q').
  { destruct (for_each_accum P _ l Hstep [] q0 HP0) as (q' & E & Hf & Hc & c' & Hm' & _ & Hin).
    exists q'. split; [exact E|]. split; [exact Hf|]. split; [exact Hc|].
    exists c'. split; [exact Hm'|]. exact Hin. }
  intros done m q Hl (Hf & Hc & c' & Hm' & Hnd' & Hin).
  destruct (Hown m Hl) as [dm Hdm].
  destruct (delete_files_run (files dm) q) as (q1 & E1 & Hf1 & Hm1 & Hc1).
  unfold remove_one. rewrite Hdm. unfold bind at 1. rewrite E1.
  unfold removeInstalledComponent, bind, readConfig. rewrite Hm1, Hm'.
  assert (Hfiles : forall q2, componentFiles q2 = componentFiles q1 ->
            forall f, componentFiles q2 f =
              if owned_by (done ++ [m])%list f then None else componentFiles q0 f).
  { intros q2 Hq2 f. rewrite Hq2, Hf1, Hf, (owned_by_snoc done m dm f Hdm).
    destruct (includes (files dm) f); [now rewrite orb_true_r|now rewrite orb_false_r]. }
  destruct (includes (installedComponents c') m) eqn:Ei.
  - eexists. split; [reflexivity|]. split; [apply Hfiles; reflexivity|].
    split; [cbn; congruence|].
    exists (with_installed c' (remove_first m (installedComponents c'))).
    split; [reflexivity|]. cbn. split; [exact (NoDup_remove_first _ _ Hnd')|].
    intros x. rewrite In_remove_first by exact Hnd'. rewrite Hin, in_app_iff. simpl.
    split; [intros [[H1 H2] H3]; split; [exact H1|intros [H|[H|[]]]; [exact (H2 H)|exact (H3 (eq_sym H))]]|].
    intros [H1 H2]. split; [split; [exact H1|tauto]|]. intros ->. apply H2. right. now left.
  - eexists. split; [reflexivity|]. split; [apply Hfiles; reflexivity|].
    split; [cbn; congruence|].
    exists c'. split; [congruence|]. split; [exact Hnd'|].
    intros x. rewrite Hin, in_app_iff. simpl. split.
    + intros [H1 H2]. split; [exact H1|]. intros [H|[H|[]]]; [exact (H2 H)|].
      subst x. assert (Hcm : In m (installedComponents c')) by (apply Hin; split; assumption).
      apply includes_In in Hcm. congruence.
    + intros [H1 H2]. split; [exact H1|tauto].
Qed.

Lemma partition_valid_complete cs c :
  In c cs -> get registry (toLowerCase c) <> Undefined ->
  In (toLowerCase c) (fst (partition_valid cs)).
Proof.
  induction cs as [|c' cs IH]; simpl; [tauto|].
  intros Hc Hu. destruct (partition_valid cs) as [v i]. simpl in IH.
  destruct Hc as [->|Hc].
  - destruct (get registry (toLowerCase c)); [now left|now left|congruence].
  - destruct (get registry (toLowerCase c')); simpl; auto.
Qed.

(** [remove] up to its deletion loop, once confirmed. *)
Lemma remove_confirmed_run (components : list string) (yes answer : bool)
    (p : Project) (cfg : DiamantConfig) :
  manifestFile p = Parsed cfg ->
  (forall c, In c components -> get registry (toLowerCase c) <> Inherited) ->
  let valid := fst (partition_valid components) in
  let invalid := snd (partition_valid components) in
  let present := filter (installed_on_disk p) valid in
  let pre := if is_empty invalid then [] else [MUnknownComponents invalid] in
  present <> [] -> yes = true \/ answer = true ->
  let deps := dependents_of present (installedComponents cfg) in
  let msgs := (pre ++ (if is_empty deps then [] else [MDependents (map display deps)])
               ++ (if yes then [] else [MWillRemove (map display present)]))%list in
  remove components yes answer p
  = (for_each present remove_one ;; log (MRemoved (length present)))
      (with_console p (console p ++ msgs)).
Proof.
  intros Hm Hinh.
  pose proof (partition_valid_spec components) as Hspec.
  destruct (partition_valid components) as [valid invalid] eqn:Ep.
  cbn [fst snd] in Hspec |- *.
  set (present := filter (installed_on_disk p) valid).
  set (pre := if is_empty invalid then [] else [MUnknownComponents invalid]).
  intros Hp Hy.
  assert (Hown : forall n, In n valid -> exists d, get registry n = Own d).
  { intros n Hn. destruct (Hspec _ Hn) as (c & Hc & -> & Hu).
    pose proof (Hinh c Hc).
    destruct (get registry (toLowerCase c)) eqn:E; [eauto|congruence|congruence]. }
  unfold remove.
  rewrite (bind_ok _ _ _ _ _ (configExists_parsed _ _ Hm)). cbn [negb].
  rewrite (bind_ok _ _ _ _ _ (readConfig_parsed _ _ Hm)).
  rewrite Ep.
  rewrite (bind_ok _ _ p tt (with_console p (console p ++ pre)))
    by (unfold pre; destruct (is_empty invalid);
        [cbn; rewrite app_nil_r; now destruct p | reflexivity]).
  destruct (is_empty valid) eqn:Ev.
  { destruct valid; [|discriminate]. exfalso. apply Hp. reflexivity. }
  rewrite (bind_ok _ _ _ _ _ (filter_installed_pure _ _ Hown)).
  change (filter (installed_on_disk (with_console p (console p ++ pre))) valid) with present.
  set (deps := dependents_of present (installedComponents cfg)).
  set (msgs := (pre ++ (if is_empty deps then [] else [MDependents (map display deps)])
                ++ (if yes then [] else [MWillRemove (map display present)]))%list).
  destruct (is_empty present) eqn:Epr; [destruct present; [contradiction|discriminate]|].
  fold deps.
  set (q1 := with_console p (console p ++ pre ++
               (if is_empty deps then [] else [MDependents (map display deps)]))%list).
  rewrite (bind_ok _ _ _ tt q1)
    by (unfold q1; destruct (is_empty deps); cbn; [now rewrite app_nil_r|now rewrite app_assoc]).
  assert (Hc : (if yes then ret true
                else (log (MWillRemove (map display present)) ;; ret answer)) q1
               = (Ok true, with_console p (console p ++ msgs))).
  { unfold msgs, q1. destruct yes.
    - cbn. now rewrite app_nil_r.
    - destruct Hy as [Hy | ->]; [discriminate|]. cbn. now rewrite <- !app_assoc. }
  rewrite (bind_ok _ _ _ _ _ Hc). cbn [negb].
  reflexivity.
Qed.

(** C6: a removal that other installed components depend on is not
    blocked. Take any request [components] (any ids, known or unknown) that
    names a registry component [n] whose first file is on disk, and any
    component [y] in the manifest that lists [n] among its internal
    dependencies and is not itself named in the request. Once the removal
    is confirmed, [remove] returns normally, prints a dependents warning
    whose list contains [y]'s display name, deletes every file of [n],
    drops [n] from the manifest, and leaves [y]'s files and its manifest
    entry in place. *)
Theorem remove_dependents_warning_nonblocking (components : list string) (yes answer : bool)
    (p : Project) (cfg : DiamantConfig) c n dn y dy :
  manifestFile p = Parsed cfg -> NoDup (installedComponents cfg) ->
  (forall c', In c' components -> get registry (toLowerCase c') <> Inherited) ->
  In c components -> toLowerCase c = n ->
  get registry n = Own dn -> installed_on_disk p n = true ->
  In y (installedComponents cfg) -> get registry y = Own dy ->
  In n (internalDependencies dy) ->
  ~ In y (map toLowerCase components) ->
  yes = true \/ answer = true ->
  let (r, p') := remove components yes answer p in
  r = Ok tt /\
  (exists names, In (MDependents names) (console p') /\ In (name dy) names) /\
  (forall f, In f (files dn) -> componentFiles p' f = None) /\
  (forall f, In f (files dy) -> componentFiles p' f = componentFiles p f) /\
  exists cfg', manifestFile p' = Parsed cfg' /\ ~ In n (installedComponents cfg') /\
               In y (installedComponents cfg').
Proof.
  intros Hm Hnd Hinh Hc Hcn Hdn Hdisk Hy Hdy Hdep Hyreq Hconf.
  pose proof (remove_confirmed_run components yes answer p cfg Hm Hinh) as Hrun.
  cbv zeta in Hrun.
  pose proof (partition_valid_spec components) as Hspec.
  set (valid := fst (partition_valid components)) in *.
  set (present := filter (installed_on_disk p) valid) in *.
  assert (Hnv : In n valid).
  { subst n. apply partition_valid_complete; [exact Hc|]. rewrite Hdn. discriminate. }
  assert (Hnp : In n present) by (apply filter_In; split; assumption).
  assert (Hyp : ~ In y present).
  { intros Hin. apply filter_In in Hin. destruct (Hspec y (proj1 Hin)) as (c' & Hc' & -> & _).
    apply Hyreq. now apply in_map. }
  assert (Hne : present <> []) by (intros E; rewrite E in Hnp; destruct Hnp).
  specialize (Hrun Hne Hconf).
  set (deps := dependents_of present (installedComponents cfg)) in *.
  assert (Hyd : In y deps).
  { unfold deps, dependents_of. apply in_flat_map. exists n. split; [exact Hnp|].
    apply in_map_iff. exists (y, dy). split; [reflexivity|].
    apply filter_In. split; [exact (find_own_In _ _ _ (get_own_find _ _ Hdy))|].
    apply andb_true_intro. split; [apply andb_true_intro; split; apply includes_In; assumption|].
    apply negb_true_iff. destruct (includes present y) eqn:E; [|reflexivity].
    apply includes_In in E. contradiction. }
  assert (Hdeps : is_empty deps = false) by (destruct deps; [destruct Hyd|reflexivity]).
  rewrite Hdeps in Hrun.
  match type of Hrun with _ = _ (with_console _ (_ ++ ?ms)) => set (msgs := ms) in Hrun end.
  assert (Hown : forall m, In m present -> exists dm, get registry m = Own dm).
  { intros m Hmp. apply filter_In in Hmp. destruct (Hspec m (proj1 Hmp)) as (c' & Hc' & -> & Hu).
    pose proof (Hinh c' Hc'). destruct (get registry (toLowerCase c')); [eauto|congruence|congruence]. }
  destruct (remove_loop_run present (with_console p (console p ++ msgs)) cfg Hown Hm Hnd)
    as (q & Eq & Hfq & Hcq & cfg' & Hmq & Hinq).
  rewrite Hrun. cbv [bind]. rewrite Eq. cbn.
  split; [reflexivity|].
  split.
  { exists (map display deps). split.
    - rewrite Hcq. cbn. apply in_or_app. left. apply in_or_app. right. unfold msgs.
      apply in_or_app. right. apply in_or_app. left. now left.
    - change (name dy) with (match Own dy with Own d => name d | _ => EmptyString end).
      rewrite <- Hdy. exact (in_map display deps y Hyd). }
  split.
  { intros f Hf. rewrite Hfq.
    assert (Ho : owned_by present f = true).
    { unfold owned_by. apply existsb_exists. exists n. split; [exact Hnp|].
      rewrite Hdn. now apply includes_In. }
    now rewrite Ho. }
  split.
  { intros f Hf. rewrite Hfq.
    destruct (owned_by present f) eqn:Ho; [|reflexivity].
    exfalso. unfold owned_by in Ho. apply existsb_exists in Ho. destruct Ho as (m & Hmp & Hmf).
    destruct (Hown m Hmp) as [dm Hdm]. rewrite Hdm in Hmf. apply includes_In in Hmf.
    assert (Hmy : m <> y) by (intros ->; contradiction).
    exact (registry_files_disjoint m y dm dy f Hdm Hdy Hmy Hmf Hf). }
  exists cfg'. split; [exact Hmq|]. split.
  - intros Hin. apply Hinq in Hin. tauto.
  - apply Hinq. split; assumption.
Qed.

Lemma remove_dependents_warning_nonblocking_witness :
  let p := mkProject (fun f => if String.eqb f "Button.tsx" then Some "b"
                               else if String.eqb f "Badge.tsx" then Some "g"
                               else if String.eqb f "Carousel.tsx" then Some "c" else None)
                     (Parsed (with_installed DEFAULT_CONFIG ["badge"; "button"; "carousel"])) [] [] in
  let dy := entry "Carousel" "A slideshow component for cycling through elements"
                  ["lucide-react"] ["button"] ["Carousel.tsx"] in
  let (r, p') := remove ["badge"; "Button"; "nope"] false true p in
  r = Ok tt /\
  (exists names, In (MDependents names) (console p') /\ In (name dy) names) /\
  (forall f, In f ["Button.tsx"] -> componentFiles p' f = None) /\
  (forall f, In f (files dy) -> componentFiles p' f = componentFiles p f) /\
  exists cfg', manifestFile p' = Parsed cfg' /\ ~ In "button" (installedComponents cfg') /\
               In "carousel" (installedComponents cfg').
Proof.
  intros p dy.
  refine (remove_dependents_warning_nonblocking ["badge"; "Button"; "nope"] false true p
            (with_installed DEFAULT_CONFIG ["badge"; "button"; "carousel"]) "Button" "button"
            (entry "Button" "A clickable button with multiple variants and ripple effect" [] [] ["Button.tsx"])
            "carousel" dy _ _ _ _ _ _ _ _ _ _ _ _).
  - reflexivity.
  - vm_compute. repeat constructor; simpl; intuition discriminate.
  - intros c' [<-|[<-|[<-|[]]]]; vm_compute; discriminate.
  - right. left. reflexivity.
  - vm_compute. reflexivity.
  - vm_compute. reflexivity.
  - vm_compute. reflexivity.
  - right. right. left. reflexivity.
  - vm_compute. reflexivity.
  - left. reflexivity.
  - vm_compute. intuition discriminate.
  - right. reflexivity.
Defined.

(** The message a command prints when [diamant.json] cannot be used. *)
Lemma guard_run {A} (k : DiamantConfig -> M A) p :
  (forall cfg, manifestFile p <> Parsed cfg) ->
  (ex <- configExists ;;
   if negb ex then (log MNotInitialized ;; exit 1) else
   config <- readConfig ;;
   match config with
   | None => log MFailedRead ;; exit 1
   | Some cfg => k cfg
   end) p =
  (Exit 1, with_console p (console p ++
     [match manifestFile p with Missing => MNotInitialized | _ => MFailedRead end])).
Proof.
  intros H. destruct p as [cf [|raw|cfg] mw co]; [reflexivity|reflexivity|].
  exfalso. exact (H cfg eq_refl).
Qed.

(** X15: [add], [remove], [update] and [diff] stop with exit code 1 and one message when diamant.json is missing or unreadable. *)
Theorem commands_need_readable_manifest templates writable projectType npmInstallOk diffLines
    components yes all overwrite selection overwriteAnswer answer component p :
  (forall cfg, manifestFile p <> Parsed cfg) ->
  let stop := (Exit 1, with_console p (console p ++
     [match manifestFile p with Missing => MNotInitialized | _ => MFailedRead end])) in
  add templates writable projectType npmInstallOk components yes all overwrite selection
      overwriteAnswer p = stop /\
  remove components yes answer p = stop /\
  update templates writable projectType components yes answer p = stop /\
  diff templates projectType diffLines component p = stop.
Proof.
  intros H stop. repeat split; unfold add, remove, update, diff; apply guard_run; exact H.
Qed.

Lemma commands_need_readable_manifest_witness :
  let p := mkProject (fun _ => Some "x") (Unparseable "{") [] [] in
  let stop := (Exit 1, with_console p (console p ++
     [match manifestFile p with Missing => MNotInitialized | _ => MFailedRead end])) in
  add (fun _ => None) (fun _ => true) "next" true ["button"] true false false [] false p = stop /\
  remove ["button"] true false p = stop /\
  update (fun _ => None) (fun _ => true) "next" ["button"] true false p = stop /\
  diff (fun _ => None) "next" (fun _ _ => []) (Some "button") p = stop.
Proof.
  intros p stop.
  exact (commands_need_readable_manifest (fun _ => None) (fun _ => true) "next" true (fun _ _ => [])
           ["button"] true false false [] false false (Some "button") p ltac:(discriminate)).
Defined.



(** X17: the import path the components get under the configuration [init --yes] writes; for [cra] without a src directory it is ..//utils. *)
Theorem init_utils_import_path options hasTypeScript isNextJs hasSrcDir tailwindConfigPath
    responses projectType :
  opt_yes options = true -> opt_components options = None ->
  utilsImportPathOf projectType
    (init_config options hasTypeScript isNextJs hasSrcDir tailwindConfigPath responses) =
  if String.eqb projectType "cra"
  then (if hasSrcDir then "../../lib/utils" else "..//utils")
  else (if hasSrcDir then "@/lib/utils" else "lib/utils").
Proof.
  intros Hy Hc. unfold init_config. rewrite Hy, Hc. unfold utilsImportPathOf, getUtilsImportPath.
  simpl. destruct (String.eqb projectType "cra"), hasSrcDir; reflexivity.
Qed.

Lemma init_utils_import_path_witness :
  utilsImportPathOf "cra"
    (init_config (mkInitOptions true None None None) true false false None
                 (mkInitResponses None None None)) = "..//utils".
Proof.
  exact (init_utils_import_path (mkInitOptions true None None None) true false false None
           (mkInitResponses None None None) "cra" eq_refl eq_refl).
Defined.

Lemma str_app_nil_r s : (s ++ EmptyString)%string = s.
Proof. induction s as [|c s IH]; simpl; congruence. Qed.

Lemma str_includes_split needle s :
  str_includes needle s = true -> exists x y, s = (x ++ needle ++ y)%string.
Proof.
  induction s as [|c s IH]; simpl.
  - destruct (strip_prefix needle "") as [r|] eqn:E; [|discriminate].
    intros _. exists EmptyString, r. apply strip_prefix_app in E. exact E.
  - destruct (strip_prefix needle (String c s)) as [r|] eqn:E.
    + intros _. exists EmptyString, r. apply strip_prefix_app in E. exact E.
    + intros H. destruct (IH H) as (x & y & ->). exists (String c x), y. reflexivity.
Qed.

Lemma str_includes_infix needle a s b :
  str_includes needle s = true -> str_includes needle (a ++ s ++ b)%string = true.
Proof.
  intros H. destruct (str_includes_split _ _ H) as (x & y & ->).
  replace (a ++ (x ++ needle ++ y) ++ b)%string with ((a ++ x) ++ needle ++ (y ++ b))%string
    by (now rewrite !str_app_assoc).
  apply str_includes_app.
Qed.

(** X18: once [init] has written the theme into the CSS file, a second [init] leaves the file alone. *)
Theorem theme_css_idempotent projectType cssPath cssPath' themesContent existing writeOk writeOk'
    newContent msg :
  str_includes "--background:" themesContent = true ->
  theme_css projectType cssPath (Some themesContent) existing writeOk = (Some newContent, msg) ->
  theme_css projectType cssPath' (Some themesContent) (Some newContent) writeOk' = (None, MCssPresent).
Proof.
  intros Hth. unfold theme_css at 1.
  assert (Hinc : forall pre, str_includes "--background:"
                   (pre ++ nl ++ nl ++ theme_header ++ nl ++ themesContent)%string = true).
  { intros pre.
    replace (pre ++ nl ++ nl ++ theme_header ++ nl ++ themesContent)%string
      with ((pre ++ nl ++ nl ++ theme_header ++ nl) ++ themesContent ++ EmptyString)%string
      by (rewrite !str_app_assoc, str_app_nil_r; reflexivity).
    apply (str_includes_infix _ _ _ _ Hth). }
  destruct existing as [ex|].
  - destruct (str_includes "--background:" ex); [discriminate|].
    destruct writeOk; [|discriminate]. intros [= <- _].
    simpl. rewrite Hinc. reflexivity.
  - destruct writeOk; [|discriminate]. intros [= <- _].
    simpl. rewrite Hinc. reflexivity.
Qed.

Lemma theme_css_idempotent_witness :
  str_includes "--background:" (":root { --background: 0 0% 100%; }") = true /\
  theme_css "vite" "src/index.css" (Some ":root { --background: 0 0% 100%; }") (Some "body {}") true
    = (Some ("@import " ++ dq ++ "tailwindcss" ++ dq ++ ";" ++ nl ++ nl ++ "body {}" ++ nl ++ nl
             ++ theme_header ++ nl ++ ":root { --background: 0 0% 100%; }")%string,
       MCssUpdated "src/index.css") /\
  theme_css "vite" "src/index.css" (Some ":root { --background: 0 0% 100%; }")
    (Some ("@import " ++ dq ++ "tailwindcss" ++ dq ++ ";" ++ nl ++ nl ++ "body {}" ++ nl ++ nl
           ++ theme_header ++ nl ++ ":root { --background: 0 0% 100%; }")%string) true
    = (None, MCssPresent).
Proof.
  split; [vm_compute; reflexivity|]. split; [vm_compute; reflexivity|].
  apply (theme_css_idempotent "vite" "src/index.css" "src/index.css"
           ":root { --background: 0 0% 100%; }" (Some "body {}") true true _
           (MCssUpdated "src/index.css")); vm_compute; reflexivity.
Defined.

(** X19: [init] keeps an existing CSS file verbatim, appends the theme after it, and the result has a Tailwind directive. *)
Theorem theme_css_keeps_existing projectType cssPath themesContent existingContent writeOk
    newContent msg :
  theme_css projectType cssPath (Some themesContent) (Some existingContent) writeOk
    = (Some newContent, msg) ->
  msg = MCssUpdated cssPath /\
  (exists pre, newContent =
     (pre ++ existingContent ++ nl ++ nl ++ theme_header ++ nl ++ themesContent)%string) /\
  str_includes "@tailwind" newContent || str_includes "tailwindcss" newContent = true.
Proof.
  unfold theme_css.
  destruct (str_includes "--background:" existingContent); [discriminate|].
  destruct writeOk; [|discriminate]. intros [= <- <-]. split; [reflexivity|].
  set (imp := if String.eqb projectType "cra" then _ else _).
  assert (Himp : str_includes "@tailwind" imp || str_includes "tailwindcss" imp = true)
    by (unfold imp; destruct (String.eqb projectType "cra"); vm_compute; reflexivity).
  destruct (str_includes "@tailwind" existingContent) eqn:E1;
    [|destruct (str_includes "tailwindcss" existingContent) eqn:E2]; cbv [negb andb].
  - split; [exists EmptyString; reflexivity|].
    pose proof (str_includes_infix "@tailwind" EmptyString existingContent
                  (nl ++ nl ++ theme_header ++ nl ++ themesContent) E1) as H.
    apply orb_true_iff; left; exact H.
  - split; [exists EmptyString; reflexivity|].
    pose proof (str_includes_infix "tailwindcss" EmptyString existingContent
                  (nl ++ nl ++ theme_header ++ nl ++ themesContent) E2) as H.
    apply orb_true_iff; right; exact H.
  - split; [exists (imp ++ nl ++ nl)%string; now rewrite !str_app_assoc|].
    apply orb_true_iff in Himp as [H|H]; apply orb_true_iff; [left|right];
      rewrite str_app_assoc; exact (str_includes_infix _ EmptyString imp _ H).
Qed.

Lemma theme_css_keeps_existing_witness :
  theme_css "cra" "src/index.css" (Some ":root{}") (Some "body {}") true
    = (Some ("@tailwind base;" ++ nl ++ "@tailwind components;" ++ nl ++ "@tailwind utilities;"
             ++ nl ++ nl ++ "body {}" ++ nl ++ nl ++ theme_header ++ nl ++ ":root{}")%string,
       MCssUpdated "src/index.css") /\
  MCssUpdated "src/index.css" = MCssUpdated "src/index.css" /\
  (exists pre, ("@tailwind base;" ++ nl ++ "@tailwind components;" ++ nl ++ "@tailwind utilities;"
             ++ nl ++ nl ++ "body {}" ++ nl ++ nl ++ theme_header ++ nl ++ ":root{}")%string =
     (pre ++ "body {}" ++ nl ++ nl ++ theme_header ++ nl ++ ":root{}")%string) /\
  str_includes "@tailwind" ("@tailwind base;" ++ nl ++ "@tailwind components;" ++ nl
             ++ "@tailwind utilities;" ++ nl ++ nl ++ "body {}" ++ nl ++ nl ++ theme_header
             ++ nl ++ ":root{}")%string
  || str_includes "tailwindcss" ("@tailwind base;" ++ nl ++ "@tailwind components;" ++ nl
             ++ "@tailwind utilities;" ++ nl ++ nl ++ "body {}" ++ nl ++ nl ++ theme_header
             ++ nl ++ ":root{}")%string = true.
Proof.
  split; [vm_compute; reflexivity|].
  apply (theme_css_keeps_existing "cra" "src/index.css" ":root{}" "body {}" true).
  vm_compute; reflexivity.
Defined.

Lemma find_own_key k reg : In k (getAllComponentNames reg) -> exists d, find_own k reg = Some d.
Proof.
  unfold getAllComponentNames. induction reg as [|[k' d'] reg IH]; simpl; [intros []|].
  intros H. destruct (String.eqb k k') eqn:E; [now exists d'|].
  destruct H as [<-|H]; [now rewrite String.eqb_refl in E|]. exact (IH H).
Qed.

Lemma registry_key_own n : In n (getAllComponentNames registry) -> exists d, get registry n = Own d.
Proof.
  intros H. destruct (find_own_key n registry H) as [d Hd]. exists d. unfold get. now rewrite Hd.
Qed.

Lemma for_each_ext {A} (l : list A) (f g : A -> M unit) p :
  (forall x, In x l -> f x = g x) -> for_each l f p = for_each l g p.
Proof.
  revert p. induction l as [|x l IH]; intros p H; simpl; [reflexivity|].
  unfold bind. rewrite (H x (or_introl eq_refl)).
  destruct (g x p) as [[[]|n|] p']; [|reflexivity|reflexivity].
  apply IH. intros y Hy. exact (H y (or_intror Hy)).
Qed.

Lemma registry_keys_nodup : NoDup (getAllComponentNames registry).
Proof.
  apply (NoDup_count_occ' string_dec). intros x Hx.
  assert (Hall : forallb (fun k => Nat.eqb (count_occ string_dec (getAllComponentNames registry) k) 1)
                         (getAllComponentNames registry) = true) by (vm_compute; reflexivity).
  rewrite forallb_forall in Hall. apply Nat.eqb_eq. exact (Hall x Hx).
Qed.

(** The table [list] prints when it shows every component. *)
Lemma list_cmd_rows p :
  let inst := match manifestFile p with Parsed cfg => installedComponents cfg | _ => [] end in
  exists rows,
    list_cmd false p =
      (Ok tt, with_console p (console p ++ MListHeader false :: rows ++
                [MListCount (length inst) (length (getAllComponentNames registry)); MListUsage])) /\
    length rows = length (getAllComponentNames registry) /\
    length (filter row_installed rows) = length (filter (includes inst) (getAllComponentNames registry)).
Proof.
  intros inst.
  set (all := getAllComponentNames registry).
  set (rowf := fun n => match get registry n with
                        | Own c => MListRow (includes inst n) (name c) (description c)
                        | _ => MListUsage
                        end).
  exists (map rowf all).
  assert (Hloop : forall q, for_each all (list_row inst) q =
                            (Ok tt, with_console q (console q ++ map rowf all))).
  { intros q. rewrite <- for_each_log. apply for_each_ext. intros n Hn.
    destruct (registry_key_own n Hn) as [d Hd]. unfold list_row, rowf. now rewrite Hd. }
  assert (Hmarks : forall l, (forall n, In n l -> In n all) ->
            length (filter row_installed (map rowf l)) = length (filter (includes inst) l)).
  { induction l as [|n l IH]; intros Hl; [reflexivity|]. cbn [map filter].
    destruct (registry_key_own n (Hl n (or_introl eq_refl))) as [d Hd].
    replace (row_installed (rowf n)) with (includes inst n)
      by (unfold rowf; rewrite Hd; reflexivity).
    specialize (IH (fun m Hm => Hl m (or_intror Hm))).
    destruct (includes inst n); cbn [length]; congruence. }
  split; [|split; [apply length_map | apply Hmarks; tauto]].
  assert (Hne : is_empty all = false) by reflexivity.
  assert (Hpre : forall k : list string -> M unit,
            bind configExists (fun ex =>
              bind (if ex then config <- readConfig ;;
                               ret match config with Some cfg => installedComponents cfg | None => [] end
                    else ret []) k) p = k inst p).
  { intros k. unfold inst. destruct p as [cf [|raw|cfg] mw co]; reflexivity. }
  unfold list_cmd. cbv zeta. fold all.
  etransitivity; [apply Hpre|]. cbv beta. rewrite Hne.
  unfold bind at 1. rewrite log_run.
  unfold bind at 1. rewrite Hloop.
  unfold bind at 1, log. cbn [componentFiles manifestFile manifestWrites console with_console].
  rewrite <- !app_assoc. reflexivity.
Qed.

(** X20: [list] marks one row per installed component and its count agrees, when diamant.json lists distinct registry keys. *)
Theorem list_count_matches_marks p cfg :
  manifestFile p = Parsed cfg ->
  NoDup (installedComponents cfg) ->
  (forall x, In x (installedComponents cfg) -> In x (getAllComponentNames registry)) ->
  exists rows,
    list_cmd false p =
      (Ok tt, with_console p (console p ++ MListHeader false :: rows ++
                [MListCount (length (installedComponents cfg))
                            (length (getAllComponentNames registry)); MListUsage])) /\
    length rows = length (getAllComponentNames registry) /\
    length (filter row_installed rows) = length (installedComponents cfg).
Proof.
  intros Hm Hnd Hkeys. destruct (list_cmd_rows p) as (rows & Hrun & Hlen & Hmarks).
  rewrite Hm in Hrun, Hmarks. exists rows. split; [exact Hrun|]. split; [exact Hlen|].
  rewrite Hmarks. symmetry. apply Permutation_length. apply NoDup_Permutation.
  - exact Hnd.
  - apply NoDup_filter. exact registry_keys_nodup.
  - intros x. rewrite filter_In, includes_In. split; [intros H; split; [exact (Hkeys x H)|exact H]|tauto].
Qed.

Lemma list_count_matches_marks_witness :
  exists rows,
    list_cmd false (mkProject (fun _ => None) (Parsed (with_installed DEFAULT_CONFIG ["alert"; "button"])) [] []) =
      (Ok tt, with_console (mkProject (fun _ => None) (Parsed (with_installed DEFAULT_CONFIG ["alert"; "button"])) [] [])
                (console (mkProject (fun _ => None) (Parsed (with_installed DEFAULT_CONFIG ["alert"; "button"])) [] [])
                 ++ MListHeader false :: rows ++
                [MListCount (length (installedComponents (with_installed DEFAULT_CONFIG ["alert"; "button"])))
                            (length (getAllComponentNames registry)); MListUsage])) /\
    length rows = length (getAllComponentNames registry) /\
    length (filter row_installed rows) = length (installedComponents (with_installed DEFAULT_CONFIG ["alert"; "button"])).
Proof.
  apply (list_count_matches_marks
           (mkProject (fun _ => None) (Parsed (with_installed DEFAULT_CONFIG ["alert"; "button"])) [] [])
           (with_installed DEFAULT_CONFIG ["alert"; "button"])).
  - reflexivity.
  - vm_compute. constructor; [intros [H|[]]; discriminate|constructor; [intros []|constructor]].
  - intros x Hx. vm_compute in Hx. destruct Hx as [<-|[<-|[]]]; vm_compute; tauto.
Defined.

(** X21: [list] works without a usable diamant.json: nothing is marked installed and the count is 0. *)
Theorem list_without_manifest p :
  (forall cfg, manifestFile p <> Parsed cfg) ->
  list_cmd true p = (Ok tt, with_console p (console p ++ [MListNoneInstalled])) /\
  exists rows,
    list_cmd false p =
      (Ok tt, with_console p (console p ++ MListHeader false :: rows ++
                [MListCount 0 (length (getAllComponentNames registry)); MListUsage])) /\
    length rows = length (getAllComponentNames registry) /\
    filter row_installed rows = [].
Proof.
  intros H.
  assert (Hinst : match manifestFile p with Parsed cfg => installedComponents cfg | _ => [] end = []).
  { destruct (manifestFile p) as [|raw|cfg]; [reflexivity|reflexivity|].
    exfalso. exact (H cfg eq_refl). }
  split.
  - destruct p as [cf [|raw|cfg] mw co]; [reflexivity|reflexivity|].
    exfalso. exact (H cfg eq_refl).
  - destruct (list_cmd_rows p) as (rows & Hrun & Hlen & Hmarks).
    rewrite Hinst in Hrun, Hmarks. exists rows. split; [exact Hrun|]. split; [exact Hlen|].
    rewrite filter_false in Hmarks. apply length_zero_iff_nil. exact Hmarks.
Qed.

Lemma list_without_manifest_witness :
  list_cmd true (mkProject (fun _ => None) (Unparseable "{") [] [])
    = (Ok tt, with_console (mkProject (fun _ => None) (Unparseable "{") [] [])
                (console (mkProject (fun _ => None) (Unparseable "{") [] []) ++ [MListNoneInstalled])) /\
  exists rows,
    list_cmd false (mkProject (fun _ => None) (Unparseable "{") [] []) =
      (Ok tt, with_console (mkProject (fun _ => None) (Unparseable "{") [] [])
                (console (mkProject (fun _ => None) (Unparseable "{") [] []) ++ MListHeader false :: rows ++
                [MListCount 0 (length (getAllComponentNames registry)); MListUsage])) /\
    length rows = length (getAllComponentNames registry) /\
    filter row_installed rows = [].
Proof.
  apply (list_without_manifest (mkProject (fun _ => None) (Unparseable "{") [] [])).
  intros cfg. discriminate.
Defined.
